(** * Wedding registry: the on-chain store and its relayer

    A shallow embedding of
      - [contracts/WeddingRegistry.sol] (the Registry Store), and
      - [relayer-lambda/index.js] (the Relayer Service),
    followed by the properties of the registry specification.

    Conventions.
      - A Solidity [uint256] is an [N]; Solidity 0.8 arithmetic is checked, so
        an increment that leaves the 256-bit range panics instead of wrapping.
      - A Solidity [string] is a byte string; [bytes(s).length > 0] is
        [s <> EmptyString].
      - A transaction either succeeds with a new storage and its event log,
        reverts with a reason string, or panics; in the last two cases the
        storage is left as it was (see [step]).
      - Gas is not modelled. *)

From Stdlib Require Import NArith ZArith String Ascii List Lia Permutation.
From Stdlib Require Import DecimalString.
From stdpp Require Import base option list strings.
Import ListNotations.

Local Open Scope string_scope.
Local Open Scope list_scope.

(** ** Part I. The registry contract *)

Module WeddingRegistry.

Definition address := N.
Definition uint256 := N.
Definition uint256_limit : N := (2 ^ 256)%N.

Record RegistryItem := mkItem {
  name : string;
  description : string;
  url : string;
  imageUrl : string;
  isPurchased : bool;
  isDeleted : bool;
  encryptedPurchaserName : string;
  purchasedAt : uint256
}.

(** Contract storage: [address public owner; RegistryItem[] public items]. *)
Record Store := mkStore {
  owner : address;
  items : list RegistryItem
}.

(** What a call sees of its transaction: [msg.sender] and [block.timestamp]. *)
Record Msg := mkMsg {
  sender : address;
  timestamp : uint256
}.

Inductive Event :=
| ItemAdded (itemId : uint256) (name : string)
| ItemUpdated (itemId : uint256) (name : string)
| ItemRemoved (itemId : uint256)
| ItemPurchased (itemId : uint256) (timestamp : uint256)
| ItemResetByOwner (itemId : uint256).

(** Outcome of a call. [Panic 0x11] is an arithmetic overflow, [Panic 0x32]
    an array access out of bounds. *)
Inductive Result (A : Type) :=
| Success (a : A)
| Revert (reason : string)
| Panic (code : N).
Arguments Success {A} a.
Arguments Revert {A} reason.
Arguments Panic {A} code.

Definition bind {A B} (r : Result A) (k : A -> Result B) : Result B :=
  match r with
  | Success a => k a
  | Revert reason => Revert reason
  | Panic code => Panic code
  end.

Notation "'do' x <- r ; k" := (bind r (fun x => k))
  (at level 10, x name, r at level 100, k at level 200).
Notation "'check' r ; k" := (bind r (fun _ => k))
  (at level 10, r at level 100, k at level 200).

Definition require (cond : bool) (reason : string) : Result unit :=
  if cond then Success tt else Revert reason.

(** [items[i]] on the storage array and on a memory array. *)
Definition index {A} (arr : list A) (i : uint256) : Result A :=
  match arr !! N.to_nat i with
  | Some x => Success x
  | None => Panic 50
  end.

(** [arr[i] = x] *)
Definition assign {A} (arr : list A) (i : uint256) (x : A) : Result (list A) :=
  if (i <? N.of_nat (length arr))%N
  then Success (<[N.to_nat i := x]> arr)
  else Panic 50.

(** [n++] and [a - b] under checked arithmetic. *)
Definition checked_inc (n : uint256) : Result uint256 :=
  if (n + 1 <? uint256_limit)%N then Success (n + 1)%N else Panic 17.

Definition checked_sub (a b : uint256) : Result uint256 :=
  if (b <=? a)%N then Success (a - b)%N else Panic 17.

(** The modifiers. *)
Definition onlyOwner (msg : Msg) (s : Store) : Result unit :=
  require (sender msg =? owner s)%N "Only owner can call this function".

Definition validItemId (itemId : uint256) (s : Store) : Result unit :=
  require (itemId <? N.of_nat (length (items s)))%N "Invalid item ID".

Definition constructor (msg : Msg) : Store :=
  {| owner := sender msg; items := [] |}.

(** Assignments to the fields of an item, [item.f = v]. *)
Definition set_name (v : string) (it : RegistryItem) : RegistryItem :=
  {| name := v; description := description it; url := url it;
     imageUrl := imageUrl it; isPurchased := isPurchased it;
     isDeleted := isDeleted it;
     encryptedPurchaserName := encryptedPurchaserName it;
     purchasedAt := purchasedAt it |}.
Definition set_description (v : string) (it : RegistryItem) : RegistryItem :=
  {| name := name it; description := v; url := url it;
     imageUrl := imageUrl it; isPurchased := isPurchased it;
     isDeleted := isDeleted it;
     encryptedPurchaserName := encryptedPurchaserName it;
     purchasedAt := purchasedAt it |}.
Definition set_url (v : string) (it : RegistryItem) : RegistryItem :=
  {| name := name it; description := description it; url := v;
     imageUrl := imageUrl it; isPurchased := isPurchased it;
     isDeleted := isDeleted it;
     encryptedPurchaserName := encryptedPurchaserName it;
     purchasedAt := purchasedAt it |}.
Definition set_imageUrl (v : string) (it : RegistryItem) : RegistryItem :=
  {| name := name it; description := description it; url := url it;
     imageUrl := v; isPurchased := isPurchased it;
     isDeleted := isDeleted it;
     encryptedPurchaserName := encryptedPurchaserName it;
     purchasedAt := purchasedAt it |}.
Definition set_isPurchased (v : bool) (it : RegistryItem) : RegistryItem :=
  {| name := name it; description := description it; url := url it;
     imageUrl := imageUrl it; isPurchased := v;
     isDeleted := isDeleted it;
     encryptedPurchaserName := encryptedPurchaserName it;
     purchasedAt := purchasedAt it |}.
Definition set_isDeleted (v : bool) (it : RegistryItem) : RegistryItem :=
  {| name := name it; description := description it; url := url it;
     imageUrl := imageUrl it; isPurchased := isPurchased it;
     isDeleted := v;
     encryptedPurchaserName := encryptedPurchaserName it;
     purchasedAt := purchasedAt it |}.
Definition set_encryptedPurchaserName (v : string) (it : RegistryItem)
    : RegistryItem :=
  {| name := name it; description := description it; url := url it;
     imageUrl := imageUrl it; isPurchased := isPurchased it;
     isDeleted := isDeleted it;
     encryptedPurchaserName := v;
     purchasedAt := purchasedAt it |}.
Definition set_purchasedAt (v : uint256) (it : RegistryItem) : RegistryItem :=
  {| name := name it; description := description it; url := url it;
     imageUrl := imageUrl it; isPurchased := isPurchased it;
     isDeleted := isDeleted it;
     encryptedPurchaserName := encryptedPurchaserName it;
     purchasedAt := v |}.

(** [items[itemId] = item] on the storage array. *)
Definition store_item (s : Store) (itemId : uint256) (item : RegistryItem)
    : Store :=
  {| owner := owner s; items := <[N.to_nat itemId := item]> (items s) |}.

Definition addItem (msg : Msg) (name_ description_ url_ imageUrl_ : string)
    (s : Store) : Result (Store * list Event) :=
  check onlyOwner msg s ;
  let newItem := {| name := name_; description := description_;
                    url := url_; imageUrl := imageUrl_;
                    isPurchased := false; isDeleted := false;
                    encryptedPurchaserName := ""; purchasedAt := 0%N |} in
  let s' := {| owner := owner s; items := items s ++ [newItem] |} in
  do itemId <- checked_sub (N.of_nat (length (items s'))) 1%N ;
  Success (s', [ItemAdded itemId name_]).

Definition updateItem (msg : Msg) (itemId : uint256)
    (name_ description_ url_ imageUrl_ : string)
    (s : Store) : Result (Store * list Event) :=
  check onlyOwner msg s ;
  check validItemId itemId s ;
  do item <- index (items s) itemId ;
  check require (negb (isDeleted item)) "Cannot update deleted item" ;
  let item := set_name name_ item in
  let item := set_description description_ item in
  let item := set_url url_ item in
  let item := set_imageUrl imageUrl_ item in
  Success (store_item s itemId item, [ItemUpdated itemId name_]).

Definition removeItem (msg : Msg) (itemId : uint256)
    (s : Store) : Result (Store * list Event) :=
  check onlyOwner msg s ;
  check validItemId itemId s ;
  do item <- index (items s) itemId ;
  check require (negb (isDeleted item)) "Item already deleted" ;
  let item := set_isDeleted true item in
  Success (store_item s itemId item, [ItemRemoved itemId]).

Definition markAsPurchased (msg : Msg) (itemId : uint256)
    (encryptedPurchaserName_ : string)
    (s : Store) : Result (Store * list Event) :=
  check validItemId itemId s ;
  do item <- index (items s) itemId ;
  check require (negb (isDeleted item)) "Item has been removed" ;
  check require (negb (isPurchased item)) "Item already purchased" ;
  check require (0 <? String.length encryptedPurchaserName_)%nat
          "Purchaser name required" ;
  let item := set_isPurchased true item in
  let item := set_encryptedPurchaserName encryptedPurchaserName_ item in
  let item := set_purchasedAt (timestamp msg) item in
  Success (store_item s itemId item, [ItemPurchased itemId (timestamp msg)]).

Definition resetItem (msg : Msg) (itemId : uint256)
    (s : Store) : Result (Store * list Event) :=
  check onlyOwner msg s ;
  check validItemId itemId s ;
  do item <- index (items s) itemId ;
  check require (negb (isDeleted item)) "Cannot reset deleted item" ;
  let item := set_isPurchased false item in
  let item := set_encryptedPurchaserName "" item in
  let item := set_purchasedAt 0%N item in
  Success (store_item s itemId item, [ItemResetByOwner itemId]).

Definition transferOwnership (msg : Msg) (newOwner : address)
    (s : Store) : Result (Store * list Event) :=
  check onlyOwner msg s ;
  check require (negb (newOwner =? 0)%N) "New owner cannot be zero address" ;
  Success ({| owner := newOwner; items := items s |}, []).

(** *** The views *)

(** [for (uint256 i = 0; i < items.length; i++) body]: [n] is the number of
    iterations left, [items.length - i]. *)
Fixpoint for_loop {S : Type} (body : uint256 -> S -> Result S)
    (n : nat) (i : uint256) (st : S) : Result S :=
  match n with
  | O => Success st
  | Datatypes.S n' =>
      do st' <- body i st ;
      do i' <- checked_inc i ;
      for_loop body n' i' st'
  end.

Definition not_deleted (it : RegistryItem) : bool := negb (isDeleted it).
Definition available (it : RegistryItem) : bool :=
  negb (isDeleted it) && negb (isPurchased it).
Definition purchased (it : RegistryItem) : bool :=
  negb (isDeleted it) && isPurchased it.

(** The body of the counting loops of the views, for the condition [cond],
    and the loop. *)
Definition count_body (cond : RegistryItem -> bool) (s : Store)
    (i count : uint256) : Result uint256 :=
  do item <- index (items s) i ;
  if cond item then checked_inc count else Success count.

Definition count_matching (cond : RegistryItem -> bool)
    (s : Store) : Result uint256 :=
  for_loop (count_body cond s) (length (items s)) 0%N 0%N.

(** [new RegistryItem[](n)]: [n] zero-initialised items. *)
Definition zero_item : RegistryItem :=
  {| name := ""; description := ""; url := ""; imageUrl := "";
     isPurchased := false; isDeleted := false;
     encryptedPurchaserName := ""; purchasedAt := 0%N |}.

Definition new_array (n : uint256) : list RegistryItem :=
  replicate (N.to_nat n) zero_item.

(** The body of the copying loops; the loop state is
    [(activeItems, currentIndex)]. *)
Definition copy_body (cond : RegistryItem -> bool) (s : Store)
    (i : uint256) (st : list RegistryItem * uint256)
    : Result (list RegistryItem * uint256) :=
  let '(arr, currentIndex) := st in
  do item <- index (items s) i ;
  if cond item then
    do arr' <- assign arr currentIndex item ;
    do currentIndex' <- checked_inc currentIndex ;
    Success (arr', currentIndex')
  else Success (arr, currentIndex).

Definition copy_matching (cond : RegistryItem -> bool) (s : Store)
    (n : uint256) : Result (list RegistryItem) :=
  do r <- for_loop (copy_body cond s) (length (items s)) 0%N
                   (new_array n, 0%N) ;
  Success (fst r).

Definition getItemCount (s : Store) : Result uint256 :=
  count_matching not_deleted s.

Definition getAllItems (s : Store) : Result (list RegistryItem) :=
  do activeCount <- count_matching not_deleted s ;
  copy_matching not_deleted s activeCount.

Definition getItem (itemId : uint256) (s : Store) : Result RegistryItem :=
  check validItemId itemId s ;
  index (items s) itemId.

Definition getAvailableItems (s : Store) : Result (list RegistryItem) :=
  do availableCount <- count_matching available s ;
  copy_matching available s availableCount.

Definition getPurchasedItems (s : Store) : Result (list RegistryItem) :=
  do purchasedCount <- count_matching purchased s ;
  copy_matching purchased s purchasedCount.

(** The getter Solidity generates for [RegistryItem[] public items]: it has
    no revert reason of its own, an index out of range fails without data. *)
Definition items_getter (itemId : uint256) (s : Store) : Result RegistryItem :=
  index (items s) itemId.

(** *** Transactions *)

Inductive Call :=
| CallAddItem (name description url imageUrl : string)
| CallUpdateItem (itemId : uint256) (name description url imageUrl : string)
| CallRemoveItem (itemId : uint256)
| CallMarkAsPurchased (itemId : uint256) (encryptedPurchaserName : string)
| CallResetItem (itemId : uint256)
| CallTransferOwnership (newOwner : address).

Definition exec (msg : Msg) (c : Call) (s : Store)
    : Result (Store * list Event) :=
  match c with
  | CallAddItem n d u i => addItem msg n d u i s
  | CallUpdateItem id n d u i => updateItem msg id n d u i s
  | CallRemoveItem id => removeItem msg id s
  | CallMarkAsPurchased id e => markAsPurchased msg id e s
  | CallResetItem id => resetItem msg id s
  | CallTransferOwnership o => transferOwnership msg o s
  end.

(** The storage after the transaction: a failed call changes nothing. *)
Definition step (s : Store) (tx : Msg * Call) : Store :=
  match exec (fst tx) (snd tx) s with
  | Success (s', _) => s'
  | Revert _ | Panic _ => s
  end.

Definition run (txs : list (Msg * Call)) (s : Store) : Store :=
  fold_left step txs s.

(** The states of a deployed contract. *)
Definition reachable (s : Store) : Prop :=
  exists deployer txs, s = run txs (constructor deployer).

(** The error kinds of the specification, as the revert reasons of the
    contract. *)
Inductive StoreError :=
| NotOwner | InvalidId | ItemDeleted | AlreadyDeleted
| AlreadyPurchased | EmptyName | NullTarget.

Definition error_kind (reason : string) : option StoreError :=
  if String.eqb reason "Only owner can call this function" then Some NotOwner
  else if String.eqb reason "Invalid item ID" then Some InvalidId
  else if String.eqb reason "Cannot update deleted item" then Some ItemDeleted
  else if String.eqb reason "Item has been removed" then Some ItemDeleted
  else if String.eqb reason "Cannot reset deleted item" then Some ItemDeleted
  else if String.eqb reason "Item already deleted" then Some AlreadyDeleted
  else if String.eqb reason "Item already purchased"
       then Some AlreadyPurchased
  else if String.eqb reason "Purchaser name required" then Some EmptyName
  else if String.eqb reason "New owner cannot be zero address"
       then Some NullTarget
  else None.

Definition fails_with (r : Result (Store * list Event)) (e : StoreError)
    : Prop :=
  exists reason, r = Revert reason /\ error_kind reason = Some e.

End WeddingRegistry.

(** ** Part II. The relayer

    The relayer runs against an outside world: the chain behind its ethers
    client, the clock, the encryption library and the notification endpoint.
    A handler is a function of the state of that world which also extends a
    trace of every outside call it makes; an awaited call either returns or
    throws. *)

Module Relayer.

Import WeddingRegistry.

(** *** JavaScript values *)

(** The values that occur in the request and response bodies. A number is
    kept by its integer value. *)
#[local] Unset Elimination Schemes.
Inductive JSValue :=
| JUndefined
| JNull
| JBool (b : bool)
| JNum (z : Z)
| JStr (s : string)
| JArr (elements : list JSValue)
| JObj (properties : list (string * JSValue)).
#[local] Set Elimination Schemes.

(** [!!v] *)
Definition truthy (v : JSValue) : bool :=
  match v with
  | JUndefined | JNull => false
  | JBool b => b
  | JNum z => negb (z =? 0)%Z
  | JStr s => negb (String.eqb s "")
  | JArr _ | JObj _ => true
  end.

(** [v === s] for a string [s]. *)
Definition strict_eq_string (v : JSValue) (s : string) : bool :=
  match v with
  | JStr s' => String.eqb s' s
  | _ => false
  end.

(** [v === null], [v === undefined] *)
Definition is_null (v : JSValue) : bool :=
  match v with JNull => true | _ => false end.
Definition is_undefined (v : JSValue) : bool :=
  match v with JUndefined => true | _ => false end.

(** [s.includes(sub)], [s.startsWith(p)], [s.endsWith(p)], [s.slice(n)] *)
Fixpoint includes (s sub : string) : bool :=
  if String.prefix sub s then true
  else match s with
       | EmptyString => false
       | String _ s' => includes s' sub
       end.

Definition startsWith (s p : string) : bool := String.prefix p s.

Definition endsWith (s p : string) : bool :=
  let n := String.length s in
  let m := String.length p in
  (m <=? n)%nat && String.eqb (String.substring (n - m) m s) p.

Definition slice (s : string) (n : nat) : string :=
  String.substring n (String.length s - n) s.

(** [s.trim()], for the white space of the ASCII range. *)
Definition is_white_space (c : ascii) : bool :=
  let n := nat_of_ascii c in
  ((9 <=? n) && (n <=? 13) || (n =? 32))%nat.

Fixpoint trim_start (s : string) : string :=
  match s with
  | String c s' => if is_white_space c then trim_start s' else s
  | EmptyString => EmptyString
  end.

Fixpoint trim_end (s : string) : string :=
  match s with
  | String c s' =>
      match trim_end s' with
      | EmptyString => if is_white_space c then EmptyString
                       else String c EmptyString
      | t => String c t
      end
  | EmptyString => EmptyString
  end.

Definition trim (s : string) : string := trim_end (trim_start s).

(** [`${n}`] for a non-negative integer. *)
Definition decimal (n : nat) : string :=
  NilZero.string_of_uint (Nat.to_uint n).

(** [Number(b)] for a non-negative BigInt: the nearest double, ties to
    even. Below [2^53] the conversion is exact. *)
Definition Number_ (b : N) : Z :=
  let z := Z.of_N b in
  if (z <? 2 ^ 53)%Z then z
  else
    let e := (Z.log2 z - 52)%Z in
    let q := Z.shiftr z e in
    let r := Z.land z (Z.ones e) in
    let half := Z.shiftl 1 (e - 1) in
    let q' := if (r <? half)%Z then q
              else if (half <? r)%Z then (q + 1)%Z
              else if Z.even q then q else (q + 1)%Z in
    Z.shiftl q' e.

(** [JSON.stringify] leaves out the properties whose value is undefined. *)
Definition object (properties : list (string * JSValue)) : JSValue :=
  JObj (List.filter (fun kv => negb (is_undefined (snd kv))) properties).

(** An error object, by the properties the relayer inspects. The message is
    a string or is absent. *)
Record JSError := mkError {
  message : option string;
  code : JSValue;
  data : JSValue;
  reason : JSValue
}.

(** [new Error(m)] and a [TypeError] raised by the runtime. *)
Definition Error_ (m : string) : JSError :=
  {| message := Some m; code := JUndefined;
     data := JUndefined; reason := JUndefined |}.

(** [error.message?.includes(sub)], as a condition *)
Definition message_includes (error : JSError) (sub : string) : bool :=
  match message error with
  | Some m => includes m sub
  | None => false
  end.

(** *** The outside world *)

Record Tx := mkTx { tx_hash : string }.
Record Receipt := mkReceipt { receipt_hash : string }.

(** What [eccrypto.encrypt] returns, each buffer in hexadecimal. *)
Record Ecies := mkEcies {
  iv : string;
  ephemPublicKey : string;
  ciphertext : string;
  mac : string
}.

Inductive Outcome (A : Type) :=
| Return (a : A)
| Throw (error : JSError).
Arguments Return {A} a.
Arguments Throw {A} error.

(** The calls that leave the process. [World] is the state of everything
    outside; each call may observe and change it. *)
Record Env (World : Type) := mkEnv {
  (** the body of [initializeContract], with the module variables it sets *)
  ext_initialize : World -> Outcome unit * World;
  (** [relayerWallet ? relayerWallet.address : undefined] *)
  ext_relayer_address : World -> option string;
  (** [contract.items(index)] *)
  ext_items : JSValue -> World -> Outcome RegistryItem * World;
  (** [contract.markAsPurchased(itemId, encryptedName)] *)
  ext_markAsPurchased : JSValue -> string -> World -> Outcome Tx * World;
  (** [tx.wait()] *)
  ext_wait : Tx -> World -> Outcome Receipt * World;
  (** [eccrypto.encrypt(publicKeyBuffer, messageBuffer)], the key given in
      hexadecimal *)
  ext_encrypt : string -> string -> World -> Outcome Ecies * World
}.
Arguments ext_initialize {World} _ _.
Arguments ext_relayer_address {World} _ _.
Arguments ext_items {World} _ _ _.
Arguments ext_markAsPurchased {World} _ _ _ _.
Arguments ext_wait {World} _ _ _.
Arguments ext_encrypt {World} _ _ _ _.

(** [process.env] *)
Record Config := mkConfig {
  REGISTRY_PASSWORD : option string;
  OWNER_PUBLIC_KEY : option string;
  CONTRACT_ADDRESS : option string;
  FORMSPREE_ENDPOINT : option string
}.

(** The trace of outside calls. *)
Inductive IO :=
| IoInitialize
| IoRead (index : JSValue)
| IoSubmit (itemId : JSValue) (encryptedName : string)
| IoWait (tx : Tx)
| IoEncrypt (publicKey name : string)
| IoSleep (ms : Z)
| IoNotify (itemId : JSValue) (itemName : string) (purchaserName : JSValue)
           (transactionHash : string).

Record RState (World : Type) := mkRState {
  world : World;
  trace : list IO
}.
Arguments mkRState {World} _ _.
Arguments world {World} _.
Arguments trace {World} _.

Definition M (World A : Type) : Type :=
  RState World -> Outcome A * RState World.

Section Monad.
Context {World : Type}.

Definition ret {A} (a : A) : M World A := fun st => (Return a, st).

Definition throw {A} (error : JSError) : M World A :=
  fun st => (Throw error, st).

Definition mbind {A B} (m : M World A) (k : A -> M World B) : M World B :=
  fun st =>
    match m st with
    | (Return a, st') => k a st'
    | (Throw error, st') => (Throw error, st')
    end.

(** [try { m } catch (error) { handler }] *)
Definition try_catch {A} (m : M World A) (handler : JSError -> M World A)
    : M World A :=
  fun st =>
    match m st with
    | (Return a, st') => (Return a, st')
    | (Throw error, st') => handler error st'
    end.

(** An outside call: it is recorded, then answered by the world. *)
Definition call {A} (io : IO) (f : World -> Outcome A * World) : M World A :=
  fun st =>
    let '(r, w) := f (world st) in
    (r, {| world := w; trace := (trace st ++ [io])%list |}).

Definition emit (io : IO) : M World unit :=
  fun st => (Return tt, {| world := world st;
                         trace := (trace st ++ [io])%list |}).
End Monad.

Notation "'await' x <- m ; k" := (mbind m (fun x => k))
  (at level 10, x name, m at level 100, k at level 200).
Notation "'perform' m ; k" := (mbind m (fun _ => k))
  (at level 10, m at level 100, k at level 200).

Record Response := mkResponse {
  statusCode : Z;
  body : JSValue
}.

(** The request body after [JSON.parse(event.body || '{}')] and the
    destructuring [{ password, itemId, purchaserName } = body]: a body that
    is not JSON, or that parses to [null], throws; of any other value the
    three properties are read, a missing one as [undefined]. *)
Inductive RequestBody :=
| BodyThrows (error : JSError)
| BodyFields (password itemId purchaserName : JSValue).

Record HttpEvent := mkEvent {
  http_method : string;
  http_path : string;
  http_body : RequestBody
}.

Section Handlers.
Context {World : Type} (env : Env World) (cfg : Config).

Definition sleep (ms : Z) : M World unit := emit (IoSleep ms).

Definition initializeContract : M World unit :=
  call IoInitialize (ext_initialize env).

Definition contract_items (index : JSValue) : M World RegistryItem :=
  call (IoRead index) (ext_items env index).

Definition contract_markAsPurchased (itemId : JSValue)
    (encryptedName : string) : M World Tx :=
  call (IoSubmit itemId encryptedName)
       (ext_markAsPurchased env itemId encryptedName).

Definition tx_wait (tx : Tx) : M World Receipt :=
  call (IoWait tx) (ext_wait env tx).

(** [isRateLimit] of [retryWithBackoff] *)
Definition isRateLimit (error : JSError) : bool :=
  strict_eq_string (code error) "CALL_EXCEPTION"
  || message_includes error "rate limit"
  || message_includes error "429".

(** The loop of [retryWithBackoff]; [n] is the number of iterations left,
    [maxRetries - attempt]. When the loop runs out the function returns
    [undefined], here [None]. *)
Fixpoint retry_loop {A} (fn : M World A) (maxRetries : nat)
    (n : nat) (attempt : nat) : M World (option A) :=
  match n with
  | O => ret None
  | S n' =>
      try_catch
        (await v <- fn ; ret (Some v))
        (fun error =>
           let isLastAttempt := (attempt =? maxRetries - 1)%nat in
           if isRateLimit error && negb isLastAttempt then
             let delayMs := (2 ^ Z.of_nat attempt * 1000)%Z in
             perform sleep delayMs ;
             retry_loop fn maxRetries n' (S attempt)
           else throw error)
  end.

Definition retryWithBackoff {A} (fn : M World A) (maxRetries : nat)
    : M World (option A) :=
  retry_loop fn maxRetries maxRetries 0.

(** [JSON.stringify(encryptedData)]: four properties, each a string of
    hexadecimal digits. *)
Definition stringify_ecies (e : Ecies) : string :=
  let q := String (ascii_of_nat 34) EmptyString in
  let field k v := q +:+ k +:+ q +:+ ":" +:+ q +:+ v +:+ q in
  "{" +:+ field "iv" (iv e) +:+ "," +:+
  field "ephemPublicKey" (ephemPublicKey e) +:+ "," +:+
  field "ciphertext" (ciphertext e) +:+ "," +:+
  field "mac" (mac e) +:+ "}".

(** The key as [eccrypto] wants it: without [0x], with the [04] of an
    uncompressed key. *)
Definition cleanPublicKey (publicKey : string) : string :=
  let cleanPublicKey :=
    if startsWith publicKey "0x" then slice publicKey 2 else publicKey in
  if negb (startsWith cleanPublicKey "04")
  then "04" +:+ cleanPublicKey else cleanPublicKey.

(** [encryptPurchaserName]: every failure inside, a missing key included,
    is replaced by one error. *)
Definition encryptPurchaserName (publicKey : option string)
    (name_ : string) : M World string :=
  try_catch
    (match publicKey with
     | None => throw (Error_ "Cannot read properties of undefined")
     | Some publicKey =>
         await encrypted <-
           call (IoEncrypt (cleanPublicKey publicKey) name_)
                (ext_encrypt env (cleanPublicKey publicKey) name_) ;
         ret (stringify_ecies encrypted)
     end)
    (fun _ => throw (Error_ "Failed to encrypt purchaser name")).

(** [submitPurchaseNotification] is started and not awaited; it swallows
    its own failures. Only the start of the request is recorded. *)
Definition submitPurchaseNotification (itemId : JSValue)
    (itemName : string) (purchaserName : JSValue)
    (transactionHash : string) : M World unit :=
  match FORMSPREE_ENDPOINT cfg with
  | None => ret tt
  | Some endpoint =>
      if String.eqb endpoint "" then ret tt
      else emit (IoNotify itemId itemName purchaserName transactionHash)
  end.

(** *** GET /items *)

Definition format_item (index : nat) (item : RegistryItem) : JSValue :=
  object [("id", JNum (Z.of_nat index));
          ("name", JStr (name item));
          ("description", JStr (description item));
          ("url", JStr (url item));
          ("imageUrl", JStr (imageUrl item));
          ("isPurchased", JBool (isPurchased item));
          ("isDeleted", JBool (isDeleted item));
          ("purchasedAt",
            if (purchasedAt item =? 0)%N then JNull
            else JNum (Number_ (purchasedAt item)))].

Definition placeholder_item (index : nat) : JSValue :=
  object [("id", JNum (Z.of_nat index));
          ("name", JStr ("[Error loading item " +:+ decimal index +:+ "]"));
          ("description", JStr "This item could not be loaded");
          ("url", JStr "");
          ("imageUrl", JStr "");
          ("isPurchased", JBool false);
          ("isDeleted", JBool true);
          ("purchasedAt", JNull)].

Definition isEndOfArray (error : JSError) : bool :=
  message_includes error "missing revert data"
  || (strict_eq_string (code error) "CALL_EXCEPTION"
      && is_null (data error) && is_null (reason error)).

(** One iteration of the listing loop: the [try] block and its [catch]. *)
Inductive Control :=
| Continue (formattedItems : list JSValue)
| Break (formattedItems : list JSValue).

Definition items_body (index : nat) (formattedItems : list JSValue)
    : M World Control :=
  try_catch
    (await item <- retryWithBackoff
                     (contract_items (JNum (Z.of_nat index))) 3 ;
     match item with
     | None => throw (Error_ "Cannot read properties of undefined")
     | Some item =>
         let formattedItems :=
           (formattedItems ++ [format_item index item])%list in
         perform sleep 50 ;
         ret (Continue formattedItems)
     end)
    (fun error =>
       if isEndOfArray error then ret (Break formattedItems)
       else ret (Continue (formattedItems ++ [placeholder_item index])%list)).

(** [for (let index = 0; index < 1024; index++)]; [n] is the number of
    iterations left, [1024 - index]. *)
Fixpoint items_loop (n : nat) (index : nat) (formattedItems : list JSValue)
    : M World (list JSValue) :=
  match n with
  | O => ret formattedItems
  | S n' =>
      await c <- items_body index formattedItems ;
      match c with
      | Break formattedItems => ret formattedItems
      | Continue formattedItems => items_loop n' (S index) formattedItems
      end
  end.

Definition list_items : M World (list JSValue) := items_loop 1024 0 [].

Definition optional_string (o : option string) : JSValue :=
  match o with Some s => JStr s | None => JUndefined end.

(** [handleGetItems]. The read-only contract instance is built from the
    address and interface [initializeContract] has already used; building it
    makes no outside call. *)
Definition handleGetItems : M World Response :=
  try_catch
    (perform initializeContract ;
     await formattedItems <- list_items ;
     ret {| statusCode := 200;
            body := object
              [("items", JArr formattedItems);
               ("count", JNum (Z.of_nat (length formattedItems)))] |})
    (fun error =>
       ret {| statusCode := 500;
              body := object
                [("error", JStr "Failed to fetch items");
                 ("message", optional_string (message error))] |}).

(** *** POST /purchase *)

(** The [try] block of [handlePurchase], then its [catch] block. *)
Definition handlePurchase_try (request : RequestBody) : M World Response :=
  match request with
  | BodyThrows error => throw error
  | BodyFields password itemId purchaserName =>
    match REGISTRY_PASSWORD cfg with
    | None =>
        ret {| statusCode := 500;
               body := object
                 [("error", JStr "Server configuration error")] |}
    | Some expectedPassword =>
      if String.eqb expectedPassword "" then
        ret {| statusCode := 500;
               body := object
                 [("error", JStr "Server configuration error")] |}
      else if negb (truthy password)
              || negb (strict_eq_string password expectedPassword) then
        ret {| statusCode := 401;
               body := object [("error", JStr "Invalid password")] |}
      else if is_undefined itemId || is_null itemId then
        ret {| statusCode := 400;
               body := object [("error", JStr "itemId is required")] |}
      else if negb (truthy purchaserName) then
        ret {| statusCode := 400;
               body := object
                 [("error", JStr "purchaserName is required")] |}
      else
        match purchaserName with
        | JStr purchaserName_ =>
          if String.eqb (trim purchaserName_) "" then
            ret {| statusCode := 400;
                   body := object
                     [("error", JStr "purchaserName is required")] |}
          else
            perform initializeContract ;
            await item <- contract_items itemId ;
            if isPurchased item then
              ret {| statusCode := 409;
                     body := object
                       [("error", JStr "Item already purchased");
                        ("itemId", itemId)] |}
            else
              await encryptedName <-
                encryptPurchaserName (OWNER_PUBLIC_KEY cfg)
                                     (trim purchaserName_) ;
              await tx <- contract_markAsPurchased itemId encryptedName ;
              await receipt <- tx_wait tx ;
              perform submitPurchaseNotification itemId (name item)
                     purchaserName (receipt_hash receipt) ;
              ret {| statusCode := 200;
                     body := object
                       [("success", JBool true);
                        ("itemId", itemId);
                        ("transactionHash", JStr (receipt_hash receipt));
                        ("message",
                          JStr "Item marked as purchased successfully")] |}
        | _ => throw (Error_ "purchaserName.trim is not a function")
        end
    end
  end.

Definition handlePurchase_catch (error : JSError) : M World Response :=
  match message error with
  | None => throw (Error_ "Cannot read properties of undefined")
  | Some m =>
      if includes m "already purchased" then
        ret {| statusCode := 409;
               body := object
                 [("error", JStr "Item already purchased")] |}
      else if includes m "Invalid item ID" then
        ret {| statusCode := 404;
               body := object [("error", JStr "Item not found")] |}
      else
        ret {| statusCode := 500;
               body := object
                 [("error", JStr "Failed to process purchase");
                  ("message", JStr m)] |}
  end.

Definition handlePurchase (request : RequestBody) : M World Response :=
  try_catch (handlePurchase_try request) handlePurchase_catch.

(** *** The Lambda entry point *)

Definition handler (event : HttpEvent) : M World Response :=
  if String.eqb (http_method event) "OPTIONS" then
    ret {| statusCode := 200; body := JStr "" |}
  else
    try_catch
      (if String.eqb (http_method event) "GET"
          && endsWith (http_path event) "/items" then
         handleGetItems
       else if String.eqb (http_method event) "POST"
               && endsWith (http_path event) "/purchase" then
         handlePurchase (http_body event)
       else if String.eqb (http_method event) "GET"
               && endsWith (http_path event) "/health" then
         fun st =>
           ret {| statusCode := 200;
                  body := object
                    [("status", JStr "healthy");
                     ("relayerAddress",
                       match ext_relayer_address env (world st) with
                       | Some a => JStr a
                       | None => JStr "not initialized"
                       end);
                     ("contractAddress",
                       optional_string (CONTRACT_ADDRESS cfg))] |} st
       else
         ret {| statusCode := 404;
                body := object [("error", JStr "Not found")] |})
      (fun error =>
         ret {| statusCode := 500;
                body := object
                  [("error", JStr "Internal server error");
                   ("message", optional_string (message error))] |}).
End Handlers.

End Relayer.

(** ** Part III. Vocabulary of the properties *)

Import WeddingRegistry.

(** Two records describe the same item when they agree on every field
    except the deletion flag. *)
Definition same_item (a b : RegistryItem) : Prop :=
  set_isDeleted false a = set_isDeleted false b.

Definition new_item (name_ description_ url_ imageUrl_ : string)
    : RegistryItem :=
  {| name := name_; description := description_; url := url_;
     imageUrl := imageUrl_; isPurchased := false; isDeleted := false;
     encryptedPurchaserName := ""; purchasedAt := 0%N |}.

Definition add_or_remove (c : Call) : bool :=
  match c with
  | CallAddItem _ _ _ _ | CallRemoveItem _ => true
  | _ => false
  end.

(** The mutating operations that name an item, and the item they name. *)
Definition target (c : Call) : option uint256 :=
  match c with
  | CallUpdateItem id _ _ _ _ | CallRemoveItem id
  | CallMarkAsPurchased id _ | CallResetItem id => Some id
  | CallAddItem _ _ _ _ | CallTransferOwnership _ => None
  end.

Definition owner_only (c : Call) : bool :=
  match c with
  | CallMarkAsPurchased _ _ => false
  | _ => true
  end.

Definition deleted_error (e : StoreError) : bool :=
  match e with
  | ItemDeleted | AlreadyDeleted => true
  | _ => false
  end.

(** I2 on one item, and the state of an item that was never purchased or
    was reset. *)
Definition coupled (it : RegistryItem) : Prop :=
  isPurchased it = true ->
  encryptedPurchaserName it <> "" /\ (0 < purchasedAt it)%N.

Definition cleared (it : RegistryItem) : Prop :=
  isPurchased it = false /\ encryptedPurchaserName it = "" /\
  purchasedAt it = 0%N.

(** A block carries a positive timestamp (seconds since 1970). *)
Definition positive_time (tx : Msg * Call) : Prop :=
  (0 < timestamp (fst tx))%N.

Import Relayer.

(** *** Reading a response and a trace *)

Definition keys (v : JSValue) : list string :=
  match v with
  | JObj properties => map fst properties
  | _ => []
  end.

Fixpoint assoc (key : string) (properties : list (string * JSValue))
    : JSValue :=
  match properties with
  | [] => JUndefined
  | (k, v) :: rest => if String.eqb k key then v else assoc key rest
  end.

(** [v[key]] *)
Definition property (key : string) (v : JSValue) : JSValue :=
  match v with
  | JObj properties => assoc key properties
  | _ => JUndefined
  end.

Definition item_keys : list string :=
  ["id"; "name"; "description"; "url"; "imageUrl"; "isPurchased";
   "isDeleted"; "purchasedAt"].

(** The state a computation leaves behind. *)
Definition after {World A} (m : M World A) (st : RState World)
    : RState World :=
  snd (m st).

Definition is_read (io : IO) : bool :=
  match io with IoRead _ => true | _ => false end.
Definition is_submit (io : IO) : bool :=
  match io with IoSubmit _ _ => true | _ => false end.
Definition is_sleep (io : IO) : bool :=
  match io with IoSleep _ => true | _ => false end.

(** A store call: a read of an item or a submission. *)
Definition is_store_call (io : IO) : bool :=
  match io with
  | IoRead _ | IoSubmit _ _ | IoWait _ => true
  | _ => false
  end.

(** The indices read and the delays slept, in the order of the trace. *)
Fixpoint reads_of (t : list IO) : list JSValue :=
  match t with
  | [] => []
  | IoRead v :: t' => v :: reads_of t'
  | _ :: t' => reads_of t'
  end.

Fixpoint sleeps_of (t : list IO) : list Z :=
  match t with
  | [] => []
  | IoSleep ms :: t' => ms :: sleeps_of t'
  | _ :: t' => sleeps_of t'
  end.

(** What [a] attempts at a call recorded as [io] leave in the trace when
    the first of them is attempt number [attempt]: the calls, separated by
    the back-off delays. *)
Fixpoint retry_trace (io : IO) (attempt a : nat) : list IO :=
  match a with
  | O => []
  | S a' =>
      io :: match a' with
            | O => []
            | S _ => IoSleep (2 ^ Z.of_nat attempt * 1000)
                     :: retry_trace io (S attempt) a'
            end
  end.

(** The delays of [k] consecutive retries: 1000, 2000, 4000, ... *)
Definition backoff_delays (k : nat) : list Z :=
  map (fun attempt => (2 ^ Z.of_nat attempt * 1000)%Z) (seq 0 k).

(** *** The listing, in the words of the specification

    The read of one index is the retried call. From [index] on, in the state
    [st]: at the bound nothing more is read; an end-of-range answer ends the
    listing; an item is formatted and, after the delay, the next index is
    read; any other failure leaves a placeholder and the next index is
    read. *)
Definition read_item {World} (env : Env World) (index : nat)
    : M World (option RegistryItem) :=
  retryWithBackoff (contract_items env (JNum (Z.of_nat index))) 3.

Inductive scan {World} (env : Env World)
    : nat -> RState World -> list JSValue -> RState World -> Prop :=
| scan_bound st :
    scan env 1024 st [] st
| scan_end index st error st' :
    index < 1024 ->
    read_item env index st = (Throw error, st') ->
    isEndOfArray error = true ->
    scan env index st [] st'
| scan_item index st item st1 rest st' :
    index < 1024 ->
    read_item env index st = (Return (Some item), st1) ->
    scan env (S index) (after (sleep 50) st1) rest st' ->
    scan env index st (format_item index item :: rest) st'
| scan_placeholder index st error st1 rest st' :
    index < 1024 ->
    read_item env index st = (Throw error, st1) ->
    isEndOfArray error = false ->
    scan env (S index) st1 rest st' ->
    scan env index st (placeholder_item index :: rest) st'.

(** *** A chain to run the relayer against

    The registry contract behind a JSON-RPC client. A read of an index out
    of range fails as a call exception without revert data; a rejected
    transaction fails as a call exception whose message carries the revert
    reason. [chain_read_faults] and [chain_submit_faults] script failures of
    the provider itself, one entry per call; [chain_mempool] holds the
    transactions of others that are mined before the next transaction of the
    relayer. *)
Record Chain := mkChain {
  chain_store : Store;
  chain_now : uint256;
  chain_relayer : address;
  chain_mempool : list (Msg * Call);
  chain_read_faults : list (option JSError);
  chain_submit_faults : list (option JSError)
}.

Definition missing_revert_data : JSError :=
  {| message :=
       Some "missing revert data (action=call, data=null, reason=null)";
     code := JStr "CALL_EXCEPTION"; data := JNull; reason := JNull |}.

Definition revert_error (reason_ : string) : JSError :=
  {| message := Some ("execution reverted: " +:+ reason_);
     code := JStr "CALL_EXCEPTION"; data := JStr "0x08c379a0";
     reason := JStr reason_ |}.

Definition rate_limit_error : JSError :=
  {| message := Some "exceeded its compute units per second capacity: 429";
     code := JStr "SERVER_ERROR"; data := JUndefined; reason := JUndefined |}.

Definition invalid_argument : JSError :=
  {| message := Some "invalid BigNumberish value";
     code := JStr "INVALID_ARGUMENT"; data := JUndefined;
     reason := JUndefined |}.

Definition to_uint256 (v : JSValue) : option uint256 :=
  match v with
  | JNum z => if (0 <=? z)%Z then Some (Z.to_N z) else None
  | _ => None
  end.

Definition chain_read (v : JSValue) (w : Chain) : Outcome RegistryItem :=
  match to_uint256 v with
  | None => Throw invalid_argument
  | Some itemId =>
      match items_getter itemId (chain_store w) with
      | Success item => Return item
      | Revert _ | Panic _ => Throw missing_revert_data
      end
  end.

Definition chain_items (v : JSValue) (w : Chain)
    : Outcome RegistryItem * Chain :=
  match chain_read_faults w with
  | Some error :: faults =>
      (Throw error,
       {| chain_store := chain_store w; chain_now := chain_now w;
          chain_relayer := chain_relayer w; chain_mempool := chain_mempool w;
          chain_read_faults := faults;
          chain_submit_faults := chain_submit_faults w |})
  | None :: faults =>
      (chain_read v w,
       {| chain_store := chain_store w; chain_now := chain_now w;
          chain_relayer := chain_relayer w; chain_mempool := chain_mempool w;
          chain_read_faults := faults;
          chain_submit_faults := chain_submit_faults w |})
  | [] => (chain_read v w, w)
  end.

Definition chain_with_store (w : Chain) (s : Store)
    (faults : list (option JSError)) : Chain :=
  {| chain_store := s; chain_now := chain_now w;
     chain_relayer := chain_relayer w; chain_mempool := [];
     chain_read_faults := chain_read_faults w;
     chain_submit_faults := faults |}.

Definition chain_mine (v : JSValue) (encryptedName : string) (w : Chain)
    (faults : list (option JSError)) : Outcome Tx * Chain :=
  let s := run (chain_mempool w) (chain_store w) in
  match to_uint256 v with
  | None => (Throw invalid_argument, chain_with_store w s faults)
  | Some itemId =>
      match markAsPurchased {| sender := chain_relayer w;
                               timestamp := chain_now w |}
                            itemId encryptedName s with
      | Success (s', _) =>
          (Return {| tx_hash := "0xabc" |}, chain_with_store w s' faults)
      | Revert reason_ =>
          (Throw (revert_error reason_), chain_with_store w s faults)
      | Panic _ =>
          (Throw missing_revert_data, chain_with_store w s faults)
      end
  end.

Definition chain_markAsPurchased (v : JSValue) (encryptedName : string)
    (w : Chain) : Outcome Tx * Chain :=
  match chain_submit_faults w with
  | Some error :: faults =>
      (Throw error,
       {| chain_store := chain_store w; chain_now := chain_now w;
          chain_relayer := chain_relayer w; chain_mempool := chain_mempool w;
          chain_read_faults := chain_read_faults w;
          chain_submit_faults := faults |})
  | None :: faults => chain_mine v encryptedName w faults
  | [] => chain_mine v encryptedName w []
  end.

Definition chain_env : Env Chain :=
  {| ext_initialize := fun w => (Return tt, w);
     ext_relayer_address := fun _ => Some "0xrelayer";
     ext_items := chain_items;
     ext_markAsPurchased := chain_markAsPurchased;
     ext_wait := fun tx w => (Return {| receipt_hash := tx_hash tx |}, w);
     ext_encrypt := fun publicKey name_ w =>
       (Return {| iv := "00"; ephemPublicKey := "04"; ciphertext := name_;
                  mac := "00" |}, w) |}.

Definition chain_of (s : Store) : Chain :=
  {| chain_store := s; chain_now := 1700000000%N; chain_relayer := 9%N;
     chain_mempool := []; chain_read_faults := [];
     chain_submit_faults := [] |}.

Definition start {World} (w : World) : RState World :=
  {| world := w; trace := [] |}.

Definition test_config : Config :=
  {| REGISTRY_PASSWORD := Some "secret"; OWNER_PUBLIC_KEY := Some "0x04ab";
     CONTRACT_ADDRESS := Some "0xc0ffee"; FORMSPREE_ENDPOINT := None |}.


Definition purchase_event (path : string) (request : RequestBody)
    : HttpEvent :=
  {| http_method := "POST"; http_path := path; http_body := request |}.


Definition eight_items : Store :=
  {| owner := 7%N;
     items := map (fun n => new_item n "" "" "")
                  ["a"; "b"; "c"; "d"; "e"; "f"; "g"; "h"] |}.


(** Two answers of the item getter that differ at most in the ciphertext. *)
Definition same_answer (a b : Outcome RegistryItem) : Prop :=
  match a, b with
  | Return x, Return y =>
      set_encryptedPurchaserName "" x = set_encryptedPurchaserName "" y
  | Throw e1, Throw e2 => e1 = e2
  | _, _ => False
  end.

(** Two worlds answer alike up to ciphertexts: related worlds answer the
    initialisation the same way and a read with the same item up to its
    ciphertext, or the same error, and stay related. *)
Definition same_outcome {A} (a b : Outcome A) : Prop :=
  match a, b with
  | Return x, Return y => x = y
  | Throw e1, Throw e2 => e1 = e2
  | _, _ => False
  end.

Definition alike {W1 W2} (env1 : Env W1) (env2 : Env W2)
    (R : W1 -> W2 -> Prop) : Prop :=
  (forall w1 w2, R w1 w2 ->
     same_outcome (fst (ext_initialize env1 w1)) (fst (ext_initialize env2 w2))
     /\ R (snd (ext_initialize env1 w1)) (snd (ext_initialize env2 w2))) /\
  (forall v w1 w2, R w1 w2 ->
     same_answer (fst (ext_items env1 v w1)) (fst (ext_items env2 v w2))
     /\ R (snd (ext_items env1 v w1)) (snd (ext_items env2 v w2))).

(** Related runs of the retried read. *)
Definition same_read {W1 W2} (R : W1 -> W2 -> Prop)
    (r1 : Outcome (option RegistryItem) * RState W1)
    (r2 : Outcome (option RegistryItem) * RState W2) : Prop :=
  R (world (snd r1)) (world (snd r2)) /\
  match fst r1, fst r2 with
  | Return (Some x), Return (Some y) =>
      set_encryptedPurchaserName "" x = set_encryptedPurchaserName "" y
  | Return None, Return None => True
  | Throw e1, Throw e2 => e1 = e2
  | _, _ => False
  end.

Definition erase_ciphertexts (s : Store) : Store :=
  {| owner := owner s;
     items := set_encryptedPurchaserName "" <$> items s |}.

(** Two chains whose stores differ at most in ciphertexts and whose
    providers fail alike. *)
Definition chains_alike (w1 w2 : Chain) : Prop :=
  erase_ciphertexts (chain_store w1) = erase_ciphertexts (chain_store w2) /\
  chain_read_faults w1 = chain_read_faults w2.

(** The retry policy in the words of the specification, for three
    attempts: a failure that is not transient propagates at once; a
    transient one is retried after 1000 ms, then after 2000 ms; the third
    failure propagates. *)
Definition retry_policy {World A} (fn : M World A) : M World (option A) :=
  fun st =>
    match fn st with
    | (Return v, st1) => (Return (Some v), st1)
    | (Throw e1, st1) =>
        if isRateLimit e1 then
          match fn (after (sleep 1000) st1) with
          | (Return v, st2) => (Return (Some v), st2)
          | (Throw e2, st2) =>
              if isRateLimit e2 then
                match fn (after (sleep 2000) st2) with
                | (Return v, st3) => (Return (Some v), st3)
                | (Throw e3, st3) => (Throw e3, st3)
                end
              else (Throw e2, st2)
          end
        else (Throw e1, st1)
    end.

(** A store with one item, not purchased. *)
Definition one_item : Store :=
  {| owner := 7%N; items := [new_item "Blender" "" "" ""] |}.

Definition good_request : RequestBody :=
  BodyFields (JStr "secret") (JNum 0) (JStr "Ann").

(** The provider fails the first read, or the first submission, with a
    rate-limit error. *)
Definition failing_read : Chain :=
  {| chain_store := one_item; chain_now := 1700000000%N;
     chain_relayer := 9%N; chain_mempool := [];
     chain_read_faults := [Some rate_limit_error];
     chain_submit_faults := [] |}.

Definition failing_submit : Chain :=
  {| chain_store := one_item; chain_now := 1700000000%N;
     chain_relayer := 9%N; chain_mempool := [];
     chain_read_faults := [];
     chain_submit_faults := [Some rate_limit_error] |}.



(** *** Vocabulary of the further properties *)

(** The life of an item. *)
Inductive ItemState := Available | Purchased | Deleted.

Definition item_state (it : RegistryItem) : ItemState :=
  if isDeleted it then Deleted
  else if isPurchased it then Purchased else Available.

(** The converse of I2 on one item. *)
Definition unpurchased_cleared (it : RegistryItem) : Prop :=
  isPurchased it = false ->
  encryptedPurchaserName it = "" /\ purchasedAt it = 0%N.

Definition is_transfer (c : Call) : bool :=
  match c with CallTransferOwnership _ => true | _ => false end.


Definition is_notify (io : IO) : bool :=
  match io with IoNotify _ _ _ _ => true | _ => false end.

(** The status codes the relayer answers with. *)
Definition status_codes : list Z := [200; 400; 401; 404; 409; 500]%Z.

(** The two routes that reach the chain. *)
Definition items_route (event : HttpEvent) : bool :=
  String.eqb (http_method event) "GET" && endsWith (http_path event) "/items".

Definition purchase_route (event : HttpEvent) : bool :=
  String.eqb (http_method event) "POST"
  && endsWith (http_path event) "/purchase".


(** ** Part IV. Properties of the registry contract *)

Ltac unfold_ops :=
  unfold exec, addItem, updateItem, removeItem, markAsPurchased, resetItem,
    transferOwnership, onlyOwner, validItemId, require, index, checked_sub,
    store_item, bind in *.

Ltac break_hyps :=
  repeat match goal with
         | H : _ /\ _ |- _ => destruct H
         | H : ex _ |- _ => destruct H
         end.

(** *** The contract's own tests, as a check of the embedding *)

Example testRemoveItem :
  let o := {| sender := 7%N; timestamp := 1%N |} in
  let s := run [(o, CallAddItem "Item 1" "Desc 1" "url1" "img1");
                (o, CallAddItem "Item 2" "Desc 2" "url2" "img2");
                (o, CallAddItem "Item 3" "Desc 3" "url3" "img3");
                (o, CallRemoveItem 1%N)] (constructor o) in
  getItemCount s = Success 2%N /\
  bind (getAllItems s) (fun l => Success (map name l))
  = Success ["Item 1"; "Item 3"] /\
  bind (getItem 1%N s) (fun it => Success (isDeleted it, name it))
  = Success (true, "Item 2").
Proof. vm_compute. repeat split; reflexivity. Qed.

Example testCannotPurchaseTwice :
  let o := {| sender := 7%N; timestamp := 1%N |} in
  let s := run [(o, CallAddItem "Toaster" "2-slice toaster" "url" "imageUrl");
                (o, CallMarkAsPurchased 0%N "first_purchaser")]
               (constructor o) in
  markAsPurchased o 0%N "second_purchaser" s
  = Revert "Item already purchased".
Proof. reflexivity. Qed.

Example testRequiresPurchaserName :
  let o := {| sender := 7%N; timestamp := 1%N |} in
  let s := run [(o, CallAddItem "Plates" "Dinner plate set" "url" "imageUrl")]
               (constructor o) in
  markAsPurchased o 0%N "" s = Revert "Purchaser name required".
Proof. reflexivity. Qed.

Example testOnlyOwnerCanRemoveItem :
  let o := {| sender := 7%N; timestamp := 1%N |} in
  let guest := {| sender := 4660%N; timestamp := 1%N |} in
  let s := run [(o, CallAddItem "Item" "Desc" "url" "img")] (constructor o) in
  removeItem guest 0%N s = Revert "Only owner can call this function".
Proof. reflexivity. Qed.

Example testCannotTransferToZeroAddress :
  let o := {| sender := 7%N; timestamp := 1%N |} in
  transferOwnership o 0%N (constructor o)
  = Revert "New owner cannot be zero address" /\
  owner (step (constructor o) (o, CallTransferOwnership 0%N)) = 7%N.
Proof. split; reflexivity. Qed.

Example testInvalidItemId :
  getItem 999%N (constructor {| sender := 7%N; timestamp := 1%N |})
  = Revert "Invalid item ID".
Proof. reflexivity. Qed.

Section StoreFacts.

Lemma valid_lookup {A} (l : list A) (i : uint256) :
(i <? N.of_nat (length l))%N = true <-> is_Some (l !! N.to_nat i).
Proof.
rewrite N.ltb_lt, lookup_lt_is_Some. lia.
Qed.

(** What a successful call did to the storage. *)
Lemma exec_success msg c s s' ev :
exec msg c s = Success (s', ev) ->
match c with
| CallAddItem n d u i =>
    sender msg = owner s /\ owner s' = owner s /\
    items s' = items s ++ [new_item n d u i] /\
    ev = [ItemAdded (N.of_nat (length (items s))) n]
| CallUpdateItem id n d u i =>
    sender msg = owner s /\ owner s' = owner s /\
    exists it, items s !! N.to_nat id = Some it /\ isDeleted it = false /\
      items s' = <[N.to_nat id :=
                    set_imageUrl i (set_url u (set_description d
                      (set_name n it)))]> (items s)
| CallRemoveItem id =>
    sender msg = owner s /\ owner s' = owner s /\
    exists it, items s !! N.to_nat id = Some it /\ isDeleted it = false /\
      items s' = <[N.to_nat id := set_isDeleted true it]> (items s)
| CallMarkAsPurchased id e =>
    owner s' = owner s /\ e <> "" /\
    exists it, items s !! N.to_nat id = Some it /\ isDeleted it = false /\
      isPurchased it = false /\
      items s' = <[N.to_nat id :=
                    set_purchasedAt (timestamp msg)
                      (set_encryptedPurchaserName e
                        (set_isPurchased true it))]> (items s)
| CallResetItem id =>
    sender msg = owner s /\ owner s' = owner s /\
    exists it, items s !! N.to_nat id = Some it /\ isDeleted it = false /\
      items s' = <[N.to_nat id :=
                    set_purchasedAt 0%N
                      (set_encryptedPurchaserName ""
                        (set_isPurchased false it))]> (items s)
| CallTransferOwnership o =>
    sender msg = owner s /\ o <> 0%N /\ owner s' = o /\ items s' = items s
end.
Proof.
intros H. destruct c; unfold_ops; cbn in H;
  repeat case_match; simplify_eq; cbn;
  repeat match goal with
         | E : (_ =? _)%N = true |- _ => apply N.eqb_eq in E
         | E : negb _ = true |- _ => apply negb_true_iff in E
         end.
- repeat split; try done.
  rewrite length_app. cbn. do 2 f_equal. lia.
- repeat split; try done. eexists; repeat split; eauto.
- repeat split; try done. eexists; repeat split; eauto.
- repeat split; try done.
  + intros ->. discriminate.
  + eexists; repeat split; eauto.
- repeat split; try done. eexists; repeat split; eauto.
- repeat split; try done. intros ->. discriminate.
Qed.

Lemma step_cases s msg c :
(exists s' ev, exec msg c s = Success (s', ev) /\ step s (msg, c) = s') \/
((forall s' ev, exec msg c s <> Success (s', ev)) /\ step s (msg, c) = s).
Proof.
unfold step; cbn. destruct (exec msg c s) as [[s' ev]| |] eqn:E.
- left. eauto.
- right. split; [congruence | done].
- right. split; [congruence | done].
Qed.

Lemma step_length s tx : length (items s) <= length (items (step s tx)).
Proof.
destruct tx as [msg c].
destruct (step_cases s msg c) as [(s' & ev & E & ->) | [_ ->] ]; [|done].
apply exec_success in E. destruct c; break_hyps;
  repeat match goal with H : items s' = _ |- _ => rewrite H end;
  rewrite ?length_app, ?length_insert; lia.
Qed.

Lemma run_length txs s : length (items s) <= length (items (run txs s)).
Proof.
revert s. induction txs as [|tx txs IH]; intros s; cbn; [done|].
etrans; [apply (step_length s tx) | apply IH].
Qed.

(** A deleted item is frozen: no transaction changes any of its fields. *)
Lemma step_deleted_frozen s tx (i : nat) it :
items s !! i = Some it -> isDeleted it = true ->
items (step s tx) !! i = Some it.
Proof.
intros Hi Hd. destruct tx as [msg c].
destruct (step_cases s msg c) as [(s' & ev & E & ->) | [_ ->] ]; [|done].
apply exec_success in E. destruct c; break_hyps;
  repeat match goal with H : items s' = _ |- _ => rewrite H end.
- by apply lookup_app_l_Some.
- destruct (decide (N.to_nat itemId = i)) as [<-|];
    [congruence | by rewrite list_lookup_insert_ne].
- destruct (decide (N.to_nat itemId = i)) as [<-|];
    [congruence | by rewrite list_lookup_insert_ne].
- destruct (decide (N.to_nat itemId = i)) as [<-|];
    [congruence | by rewrite list_lookup_insert_ne].
- destruct (decide (N.to_nat itemId = i)) as [<-|];
    [congruence | by rewrite list_lookup_insert_ne].
- done.
Qed.

Lemma run_deleted_frozen txs s (i : nat) it :
items s !! i = Some it -> isDeleted it = true ->
items (run txs s) !! i = Some it.
Proof.
revert s. induction txs as [|tx txs IH]; intros s Hi Hd; cbn; [done|].
apply IH; [by apply step_deleted_frozen | done].
Qed.

Lemma same_item_refl it : same_item it it.
Proof. done. Qed.

Lemma same_item_trans a b c : same_item a b -> same_item b c -> same_item a c.
Proof. unfold same_item. congruence. Qed.

Lemma same_item_set_isDeleted b it : same_item it (set_isDeleted b it).
Proof. done. Qed.

(** Adding and removing keep every index on its item. *)
Lemma step_add_remove_stable s msg c (i : nat) it :
add_or_remove c = true ->
items s !! i = Some it ->
exists it', items (step s (msg, c)) !! i = Some it' /\ same_item it it' /\
            (isDeleted it = true -> isDeleted it' = true).
Proof.
intros Hc Hi.
destruct (step_cases s msg c) as [(s' & ev & E & ->) | [_ ->] ];
  [|by exists it].
apply exec_success in E. destruct c; try discriminate.
- destruct E as (_ & _ & -> & _). exists it.
  split; [by apply lookup_app_l_Some | done].
- destruct E as (_ & _ & it0 & H0 & Hd0 & ->).
  destruct (decide (N.to_nat itemId = i)) as [<-|Hne].
  + exists (set_isDeleted true it0). simplify_eq.
    split; [|done].
    apply list_lookup_insert_eq. by eapply lookup_lt_Some.
  + exists it. by rewrite list_lookup_insert_ne.
Qed.

Lemma run_add_remove_stable txs s (i : nat) it :
Forall (fun tx => add_or_remove (snd tx) = true) txs ->
items s !! i = Some it ->
exists it', items (run txs s) !! i = Some it' /\ same_item it it' /\
            (isDeleted it = true -> isDeleted it' = true).
Proof.
revert s it. induction txs as [|[msg c] txs IH]; intros s it Hall Hi; cbn.
- by exists it.
- inversion Hall as [|? ? Hc Hall']; subst. cbn in Hc.
  destruct (step_add_remove_stable s msg c i it Hc Hi)
    as (it1 & H1 & Hs1 & Hd1).
  destruct (IH _ _ Hall' H1) as (it2 & H2 & Hs2 & Hd2).
  exists it2. split; [done|]. split; [by eapply same_item_trans|].
  auto.
Qed.

End StoreFacts.

(** *** C1: index stability *)

(** C1. [addItem] appends the new item at the index equal to the old length
    and reports that index; [removeItem] only sets [isDeleted] of the item it
    names, in place; and over any sequence of [addItem] and [removeItem]
    transactions every index keeps referring to the same item (all fields
    but the deletion flag, which can only be raised), so the array never
    gets shorter. *)
Theorem index_stability :
  (forall msg n d u i s s' ev,
     addItem msg n d u i s = Success (s', ev) ->
     items s' = items s ++ [new_item n d u i] /\
     items s' !! length (items s) = Some (new_item n d u i) /\
     ev = [ItemAdded (N.of_nat (length (items s))) n]) /\
  (forall msg id s s' ev,
     removeItem msg id s = Success (s', ev) ->
     owner s' = owner s /\
     length (items s') = length (items s) /\
     exists it, items s !! N.to_nat id = Some it /\
       items s' = <[N.to_nat id := set_isDeleted true it]> (items s) /\
       same_item it (set_isDeleted true it) /\
       forall j : nat, j <> N.to_nat id -> items s' !! j = items s !! j) /\
  (forall txs s,
     Forall (fun tx => add_or_remove (snd tx) = true) txs ->
     length (items s) <= length (items (run txs s)) /\
     forall (i : nat) it, items s !! i = Some it ->
       exists it', items (run txs s) !! i = Some it' /\ same_item it it' /\
                   (isDeleted it = true -> isDeleted it' = true)).
Proof.
  split; [|split].
  - intros msg n d u i s s' ev H.
    apply (exec_success msg (CallAddItem n d u i)) in H.
    destruct H as (_ & _ & H & ->). rewrite H. split; [done|]. split; [|done].
    by rewrite lookup_app_r, Nat.sub_diag.
  - intros msg id s s' ev H.
    apply (exec_success msg (CallRemoveItem id)) in H.
    destruct H as (_ & Ho & it & Hit & _ & H). rewrite H.
    split; [done|]. split; [by rewrite length_insert|].
    exists it. repeat split; try done.
    intros j Hj. by rewrite list_lookup_insert_ne.
  - intros txs s Hall. split; [apply run_length|].
    intros i it Hi. by apply run_add_remove_stable.
Qed.

Lemma index_stability_witness :
  let o := {| sender := 7%N; timestamp := 1700000000%N |} in
  let s := run [(o, CallAddItem "Blender" "" "" "");
                (o, CallAddItem "Toaster" "" "" "")] (constructor o) in
  let txs := [(o, CallRemoveItem 0%N); (o, CallAddItem "Plates" "" "" "");
              (o, CallRemoveItem 1%N)] in
  length (items s) <= length (items (run txs s)) /\
  exists it', items (run txs s) !! 1%nat = Some it' /\
              same_item (new_item "Toaster" "" "" "") it' /\
              (isDeleted (new_item "Toaster" "" "" "") = true ->
               isDeleted it' = true).
Proof.
  intros o s txs.
  destruct index_stability as (_ & _ & H).
  destruct (H txs s) as [Hlen Hstable].
  - repeat constructor.
  - split; [exact Hlen|]. apply Hstable. reflexivity.
Defined.

(** *** C2: delete monotonicity *)

Lemma exec_on_deleted msg c s id it :
  target c = Some id ->
  items s !! N.to_nat id = Some it -> isDeleted it = true ->
  exists reason, exec msg c s = Revert reason /\
    if owner_only c && negb (sender msg =? owner s)%N
    then error_kind reason = Some NotOwner
    else exists e, error_kind reason = Some e /\ deleted_error e = true.
Proof.
  intros Ht Hit Hd.
  assert (Hv : (id <? N.of_nat (length (items s)))%N = true)
    by (apply valid_lookup; eauto).
  destruct c; simplify_eq/=; unfold_ops; cbn;
    rewrite ?Hv, ?Hit, ?Hd; cbn;
    try (destruct (sender msg =? owner s)%N; cbn);
    eexists; (split; [reflexivity|]); cbn; eauto.
Qed.

(** C2, as the contract has it. A deleted item is frozen: after any sequence
    of transactions it is still there, still deleted, with the same fields.
    Every mutating operation that targets it fails and leaves the storage
    unchanged; the failure is the deleted-item error when the caller passes
    the owner check of the operation ([markAsPurchased] has none), and the
    not-owner error otherwise, because the owner check comes first. *)
Theorem delete_monotonicity :
  (forall txs s (i : nat) it,
     items s !! i = Some it -> isDeleted it = true ->
     items (run txs s) !! i = Some it) /\
  (forall msg c s id it,
     target c = Some id ->
     items s !! N.to_nat id = Some it -> isDeleted it = true ->
     step s (msg, c) = s /\
     exists reason, exec msg c s = Revert reason /\
       if owner_only c && negb (sender msg =? owner s)%N
       then error_kind reason = Some NotOwner
       else exists e, error_kind reason = Some e /\ deleted_error e = true).
Proof.
  split.
  - apply run_deleted_frozen.
  - intros msg c s id it Ht Hit Hd.
    destruct (exec_on_deleted msg c s id it Ht Hit Hd) as (reason & E & Hk).
    split; [|eauto]. unfold step; cbn. by rewrite E.
Qed.

Lemma delete_monotonicity_witness :
  let o := {| sender := 7%N; timestamp := 1700000000%N |} in
  let s := run [(o, CallAddItem "Blender" "" "" ""); (o, CallRemoveItem 0%N)]
               (constructor o) in
  step s (o, CallResetItem 0%N) = s /\
  exists reason, exec o (CallResetItem 0%N) s = Revert reason /\
    exists e, error_kind reason = Some e /\ deleted_error e = true.
Proof.
  intros o s.
  destruct delete_monotonicity as [_ H].
  exact (H o (CallResetItem 0%N) s 0%N
           (set_isDeleted true (new_item "Blender" "" "" ""))
           eq_refl eq_refl eq_refl).
Defined.

(** C2 as the specification words it fails for a caller who is not the
    owner: the call is rejected by the owner check before the deletion flag
    is looked at. *)
Lemma delete_error_counterexample :
  let o := {| sender := 7%N; timestamp := 1700000000%N |} in
  let guest := {| sender := 8%N; timestamp := 1700000001%N |} in
  let s := run [(o, CallAddItem "Blender" "" "" ""); (o, CallRemoveItem 0%N)]
               (constructor o) in
  reachable s /\
  (exists it, items s !! N.to_nat 0 = Some it /\ isDeleted it = true) /\
  target (CallRemoveItem 0%N) = Some 0%N /\
  exec guest (CallRemoveItem 0%N) s
    = Revert "Only owner can call this function" /\
  ~ (fails_with (exec guest (CallRemoveItem 0%N) s) ItemDeleted \/
     fails_with (exec guest (CallRemoveItem 0%N) s) AlreadyDeleted).
Proof.
  intros o guest s. split; [by eexists _, _|].
  split; [by eexists|]. split; [done|]. split; [done|].
  intros [(reason & E & K)|(reason & E & K)];
    vm_compute in E; injection E as <-; vm_compute in K; discriminate.
Qed.

(** *** C3: the contract of markAsPurchased *)

Lemma fails_with_revert {e} reason :
  error_kind reason = Some e ->
  fails_with (Revert reason) e.
Proof. intros H. by exists reason. Qed.

Lemma string_length_pos (e : string) :
  (0 <? String.length e)%nat = true <-> e <> "".
Proof. destruct e; cbn; split; intros; congruence. Qed.




(** *** C5: the purchase fields move together *)

Lemma step_coupled s tx :
  positive_time tx ->
  Forall coupled (items s) -> Forall coupled (items (step s tx)).
Proof.
  destruct tx as [msg c]. unfold positive_time; cbn. intros Ht Hs.
  destruct (step_cases s msg c) as [(s' & ev & E & ->) | [_ ->] ]; [|done].
  apply exec_success in E. destruct c; break_hyps;
    repeat match goal with H : items s' = _ |- _ => rewrite H end;
    try done.
  - apply Forall_app. split; [done|]. apply Forall_singleton. by intros ?.
  - apply Forall_insert; [done|].
    eapply Forall_lookup_1 in Hs; [|eassumption]. exact Hs.
  - apply Forall_insert; [done|].
    eapply Forall_lookup_1 in Hs; [|eassumption]. exact Hs.
  - apply Forall_insert; [done|]. intros _. cbn. by split.
  - apply Forall_insert; [done|]. by intros ?.
Qed.

Lemma run_coupled txs s :
  Forall positive_time txs ->
  Forall coupled (items s) -> Forall coupled (items (run txs s)).
Proof.
  revert s. induction txs as [|tx txs IH]; intros s Hall Hs; cbn; [done|].
  inversion Hall; subst. apply IH; [done|]. by apply step_coupled.
Qed.

(** C5. I2 holds of every item of a fresh registry and is preserved by every
    transaction of a block with a positive timestamp, so it holds in every
    state reached through such blocks: a purchased item has a non-empty
    encrypted name and a positive purchase time. A successful [resetItem]
    leaves its item unpurchased with an empty name and time zero, the state
    in which [addItem] creates an item. *)
Theorem purchase_field_coupling :
  (forall deployer, Forall coupled (items (constructor deployer))) /\
  (forall s tx,
     positive_time tx ->
     Forall coupled (items s) -> Forall coupled (items (step s tx))) /\
  (forall deployer txs,
     Forall positive_time txs ->
     forall (i : nat) it,
       items (run txs (constructor deployer)) !! i = Some it ->
       isPurchased it = true ->
       encryptedPurchaserName it <> "" /\ (0 < purchasedAt it)%N) /\
  (forall msg id s s' ev,
     resetItem msg id s = Success (s', ev) ->
     exists it, items s' !! N.to_nat id = Some it /\ cleared it) /\
  (forall msg n d u i s s' ev,
     addItem msg n d u i s = Success (s', ev) ->
     exists it, items s' !! length (items s) = Some it /\ cleared it).
Proof.
  split; [by constructor|]. split; [apply step_coupled|].
  split; [|split].
  - intros deployer txs Hall i it Hi.
    assert (H : Forall coupled (items (run txs (constructor deployer))))
      by (apply run_coupled; [done | constructor]).
    eapply Forall_lookup_1 in H; [|eassumption]. exact H.
  - intros msg id s s' ev H.
    apply (exec_success msg (CallResetItem id)) in H.
    destruct H as (_ & _ & it & Hit & _ & ->).
    exists (set_purchasedAt 0%N
              (set_encryptedPurchaserName "" (set_isPurchased false it))).
    split; [|done].
    apply list_lookup_insert_eq. by eapply lookup_lt_Some.
  - intros msg n d u i s s' ev H.
    apply (exec_success msg (CallAddItem n d u i)) in H.
    destruct H as (_ & _ & -> & _).
    exists (new_item n d u i). split; [|done].
    by rewrite lookup_app_r, Nat.sub_diag.
Qed.

Lemma purchase_field_coupling_witness :
  let o := {| sender := 7%N; timestamp := 1700000000%N |} in
  let guest := {| sender := 8%N; timestamp := 1700000500%N |} in
  let txs := [(o, CallAddItem "Glasses" "" "" "");
              (guest, CallMarkAsPurchased 0%N "enc")] in
  let it := set_purchasedAt 1700000500%N
              (set_encryptedPurchaserName "enc"
                (set_isPurchased true (new_item "Glasses" "" "" ""))) in
  items (run txs (constructor o)) !! 0%nat = Some it /\
  encryptedPurchaserName it <> "" /\ (0 < purchasedAt it)%N.
Proof.
  intros o guest txs it.
  destruct purchase_field_coupling as (_ & _ & H & _).
  split; [reflexivity|].
  apply (H o txs ltac:(repeat constructor) 0%nat it); reflexivity.
Defined.

(** *** C4: the views *)

Section Views.
Variable cond : RegistryItem -> bool.
Variable s : Store.
Hypothesis length_fits : (N.of_nat (length (items s)) < uint256_limit)%N.

Lemma filter_length_le (l : list RegistryItem) :
  length (List.filter cond l) <= length l.
Proof. induction l as [|x l IH]; cbn; [done|]. destruct (cond x); cbn; lia. Qed.

Lemma checked_inc_below (n : nat) :
  n < length (items s) ->
  checked_inc (N.of_nat n) = Success (N.of_nat (S n)).
Proof.
  intros H. unfold checked_inc.
  assert ((N.of_nat n + 1 <? uint256_limit)%N = true) as ->
    by (apply N.ltb_lt; lia).
  f_equal. lia.
Qed.

Lemma index_middle (pre suf : list RegistryItem) x :
  items s = pre ++ x :: suf ->
  index (items s) (N.of_nat (length pre)) = Success x.
Proof.
  intros ->. unfold index. rewrite Nat2N.id.
  by rewrite list_lookup_middle.
Qed.

(** Invariant of the counting loop: after the prefix [pre], the counter
    is the number of matching items of [pre]. *)
Lemma count_loop_spec (suf pre : list RegistryItem) :
  items s = pre ++ suf ->
  for_loop (count_body cond s) (length suf) (N.of_nat (length pre))
           (N.of_nat (length (List.filter cond pre)))
  = Success (N.of_nat (length (List.filter cond (items s)))).
Proof.
  revert pre. induction suf as [|x suf IH]; intros pre Hs.
  - cbn. rewrite Hs, app_nil_r. done.
  - cbn [length for_loop]. unfold count_body at 1.
    rewrite (index_middle pre suf x Hs). cbn [bind].
    assert (Hlen : length pre < length (items s))
      by (rewrite Hs, length_app; cbn; lia).
    assert (Hflen : length (List.filter cond (pre ++ [x]))
                    <= length (items s)).
    { etrans; [apply filter_length_le|].
      rewrite Hs, !length_app. cbn. lia. }
    specialize (IH (pre ++ [x])).
    rewrite length_app in IH. rewrite List.filter_app in IH, Hflen.
    cbn [length] in IH.
    replace (length pre + 1) with (S (length pre)) in IH by lia.
    cbn [List.filter] in IH, Hflen.
    destruct (cond x).
    + rewrite length_app in IH, Hflen. cbn [length] in IH, Hflen.
      rewrite checked_inc_below by lia. cbn [bind].
      rewrite checked_inc_below by lia. cbn [bind].
      replace (S (length (List.filter cond pre)))
        with (length (List.filter cond pre) + 1) by lia.
      apply IH. by rewrite <- app_assoc.
    + rewrite app_nil_r in IH.
      cbn [bind]. rewrite checked_inc_below by lia. cbn [bind].
      apply IH. by rewrite <- app_assoc.
Qed.

Lemma count_matching_spec :
  count_matching cond s
  = Success (N.of_nat (length (List.filter cond (items s)))).
Proof. exact (count_loop_spec (items s) [] eq_refl). Qed.

(** Invariant of the copying loop: the array holds the matching items of
    the prefix, then zero items; [currentIndex] is where the zeros
    start. *)
Lemma copy_loop_spec (suf pre : list RegistryItem) :
  items s = pre ++ suf ->
  for_loop (copy_body cond s) (length suf) (N.of_nat (length pre))
    (List.filter cond pre
       ++ replicate (length (List.filter cond suf)) zero_item,
     N.of_nat (length (List.filter cond pre)))
  = Success (List.filter cond (items s),
             N.of_nat (length (List.filter cond (items s)))).
Proof.
  revert pre. induction suf as [|x suf IH]; intros pre Hs.
  - cbn. rewrite Hs, !app_nil_r. done.
  - cbn [length for_loop]. unfold copy_body at 1.
    rewrite (index_middle pre suf x Hs). cbn [bind].
    assert (Hlen : length pre < length (items s))
      by (rewrite Hs, length_app; cbn; lia).
    assert (Hflen : length (List.filter cond (pre ++ [x]))
                    <= length (items s)).
    { etrans; [apply filter_length_le|].
      rewrite Hs, !length_app. cbn. lia. }
    specialize (IH (pre ++ [x])).
    rewrite length_app in IH. rewrite List.filter_app in IH, Hflen.
    cbn [length] in IH.
    replace (length pre + 1) with (S (length pre)) in IH by lia.
    cbn [List.filter] in IH, Hflen |- *.
    destruct (cond x).
    + rewrite length_app in IH, Hflen. cbn [length] in IH, Hflen.
      unfold assign.
      assert ((N.of_nat (length (List.filter cond pre)) <?
               N.of_nat (length (List.filter cond pre ++
                 replicate (length (x :: List.filter cond suf))
                   zero_item)))%N = true) as ->.
      { apply N.ltb_lt. rewrite length_app, length_replicate. cbn. lia. }
      cbn [bind]. rewrite checked_inc_below by lia. cbn [bind].
      rewrite checked_inc_below by lia. cbn [bind].
      rewrite Nat2N.id.
      rewrite insert_app_r_alt by lia. rewrite Nat.sub_diag. cbn.
      replace (S (length (List.filter cond pre)))
        with (length (List.filter cond pre) + 1) by lia.
      rewrite <- (app_assoc (List.filter cond pre) [x]) in IH.
      apply IH. by rewrite <- app_assoc.
    + rewrite app_nil_r in IH.
      cbn [bind]. rewrite checked_inc_below by lia. cbn [bind].
      apply IH. by rewrite <- app_assoc.
Qed.

Lemma copy_matching_spec :
  copy_matching cond s (N.of_nat (length (List.filter cond (items s))))
  = Success (List.filter cond (items s)).
Proof.
  unfold copy_matching, new_array. rewrite Nat2N.id.
  pose proof (copy_loop_spec (items s) [] eq_refl) as H.
  cbn [length List.filter app] in H.
  change (N.of_nat 0) with 0%N in H.
  by rewrite H.
Qed.
End Views.

Lemma filter_filter_and {A} (f g : A -> bool) (l : list A) :
  List.filter g (List.filter f l) = List.filter (fun x => f x && g x) l.
Proof.
  induction l as [|x l IH]; cbn; [done|].
  destruct (f x); cbn; [destruct (g x)|]; by rewrite IH.
Qed.

Lemma filter_complement_perm {A} (f : A -> bool) (l : list A) :
  Permutation (List.filter f l ++ List.filter (fun x => negb (f x)) l) l.
Proof.
  induction l as [|x l IH]; cbn; [done|].
  destruct (f x); cbn.
  - by constructor.
  - symmetry. apply Permutation_cons_app. by symmetry.
Qed.

(** C4. On a registry whose length fits a [uint256], the three listing views
    return the items that are not deleted, not deleted and not purchased, not
    deleted and purchased, each in the order of the indices. The available
    and the purchased items have no item in common and are the unpurchased
    and the purchased part of [getAllItems]; [getItemCount] is the length of
    [getAllItems]; and [getAllItems] with the deleted items is the whole
    array, up to order. *)
Theorem view_consistency s :
  (N.of_nat (length (items s)) < uint256_limit)%N ->
  exists all avail purch,
    getAllItems s = Success all /\
    getAvailableItems s = Success avail /\
    getPurchasedItems s = Success purch /\
    getItemCount s = Success (N.of_nat (length all)) /\
    all = List.filter not_deleted (items s) /\
    avail = List.filter available (items s) /\
    purch = List.filter purchased (items s) /\
    (forall it, In it avail -> ~ In it purch) /\
    avail = List.filter (fun it => negb (isPurchased it)) all /\
    purch = List.filter isPurchased all /\
    Permutation (avail ++ purch) all /\
    Permutation (all ++ List.filter isDeleted (items s)) (items s).
Proof.
  intros Hfit.
  exists (List.filter not_deleted (items s)),
         (List.filter available (items s)),
         (List.filter purchased (items s)).
  assert (Ha : List.filter available (items s)
               = List.filter (fun it => negb (isPurchased it))
                             (List.filter not_deleted (items s)))
    by (by rewrite filter_filter_and).
  assert (Hp : List.filter purchased (items s)
               = List.filter isPurchased (List.filter not_deleted (items s)))
    by (by rewrite filter_filter_and).
  unfold getAllItems, getAvailableItems, getPurchasedItems, getItemCount.
  rewrite !count_matching_spec by done. cbn [bind].
  rewrite !copy_matching_spec by done.
  repeat split; try done.
  - intros it [_ H1]%List.filter_In [_ H2]%List.filter_In.
    unfold available, purchased in *.
    destruct (isDeleted it), (isPurchased it); discriminate.
  - rewrite Ha, Hp.
    etrans; [apply Permutation_app_comm|].
    apply (filter_complement_perm isPurchased).
  - assert (Hd : List.filter isDeleted (items s)
                 = List.filter (fun x => negb (not_deleted x)) (items s)).
    { clear. induction (items s) as [|x l IH]; cbn; [done|].
      unfold not_deleted at 1. rewrite negb_involutive.
      destruct (isDeleted x); by rewrite IH. }
    rewrite Hd. apply filter_complement_perm.
Qed.

Lemma view_consistency_witness :
  let o := {| sender := 7%N; timestamp := 1700000000%N |} in
  let s := run [(o, CallAddItem "Item 1" "" "" "");
                (o, CallAddItem "Item 2" "" "" "");
                (o, CallAddItem "Item 3" "" "" "");
                (o, CallAddItem "Item 4" "" "" "");
                (o, CallMarkAsPurchased 1%N "encrypted_name");
                (o, CallRemoveItem 2%N)] (constructor o) in
  exists all avail purch,
    getAllItems s = Success all /\
    getAvailableItems s = Success avail /\
    getPurchasedItems s = Success purch /\
    getItemCount s = Success (N.of_nat (length all)) /\
    map name all = ["Item 1"; "Item 2"; "Item 4"] /\
    map name avail = ["Item 1"; "Item 4"] /\
    map name purch = ["Item 2"].
Proof.
  intros o s.
  destruct (view_consistency s) as
    (all & avail & purch & H1 & H2 & H3 & H4 & -> & -> & -> & _).
  - vm_compute. reflexivity.
  - exists (List.filter not_deleted (items s)),
           (List.filter available (items s)),
           (List.filter purchased (items s)).
    repeat split; assumption || reflexivity.
Defined.

(** ** Part V. Properties of the relayer *)

(** *** Two runs against the chain, as a check of the embedding *)

Example purchase_succeeds :
  let st := after (handler chain_env test_config
                     (purchase_event "/purchase" good_request))
                  (start (chain_of one_item)) in
  (exists response,
     fst (handler chain_env test_config
            (purchase_event "/purchase" good_request)
            (start (chain_of one_item))) = Return response /\
     statusCode response = 200%Z /\
     property "transactionHash" (body response) = JStr "0xabc") /\
  map isPurchased (items (chain_store (world st))) = [true] /\
  map purchasedAt (items (chain_store (world st))) = [1700000000%N] /\
  map is_store_call (trace st) = [false; true; false; true; true].
Proof.
  split; [eexists; split; [vm_compute; reflexivity | by split] |].
  repeat split; reflexivity.
Qed.

Example second_purchase_conflicts :
  let st := after (handlePurchase chain_env test_config good_request)
                  (start (chain_of one_item)) in
  exists response,
    fst (handlePurchase chain_env test_config good_request st)
    = Return response /\
    statusCode response = 409%Z /\
    List.filter is_submit (trace (after (handlePurchase chain_env test_config
                                           good_request) st))
    = List.filter is_submit (trace st).
Proof. eexists. split; [vm_compute; reflexivity | by split]. Qed.

(** *** C9: the password gate *)





(** *** The retry loop *)

Section Retry.
Context {World A : Type} (fn : M World A) (io : IO).
Hypothesis fn_trace : forall st, trace (after fn st) = trace st ++ [io].

(** The loop makes at least one and at most [n] attempts, and sleeps the
    back-off delay between two attempts. *)
Lemma retry_loop_trace maxRetries n attempt st :
  n + attempt = maxRetries ->
  exists a, a <= n /\ (0 < n -> 0 < a) /\
    trace (after (retry_loop fn maxRetries n attempt) st)
    = trace st ++ retry_trace io attempt a.
Proof.
  revert attempt st. induction n as [|n IH]; intros attempt st Hn.
  - exists 0. split; [done|]. split; [lia|]. cbn. by rewrite app_nil_r.
  - pose proof (fn_trace st) as Hfn. unfold after in *.
    cbn [retry_loop]. unfold try_catch, mbind at 1.
    destruct (fn st) as [[v|error] st1]; cbn [snd] in Hfn.
    + exists 1. split; [lia|]. split; [lia|]. cbn. done.
    + destruct (isRateLimit error
                && negb (attempt =? maxRetries - 1)%nat) eqn:Hretry.
      * apply andb_true_iff in Hretry as [_ Hlast].
        apply negb_true_iff, Nat.eqb_neq in Hlast.
        destruct (IH (S attempt)
                     (after (sleep (2 ^ Z.of_nat attempt * 1000)) st1))
          as (a & Ha & Hpos & Ht); [lia|].
        exists (S a). split; [lia|]. split; [lia|].
        unfold mbind, after in *. cbn in Ht |- *.
        rewrite Ht, Hfn. cbn [retry_trace].
        destruct a as [|a]; [lia|].
        by rewrite <- !app_assoc.
      * exists 1. split; [lia|]. split; [lia|]. cbn. done.
Qed.

(** With [n + attempt = maxRetries] the loop never runs out: it does not
    return [undefined]. *)
Lemma retry_loop_defined maxRetries n attempt st :
  n + attempt = maxRetries -> 0 < n ->
  fst (retry_loop fn maxRetries n attempt st) <> Return None.
Proof.
  revert attempt st. induction n as [|n IH]; intros attempt st Hn Hpos;
    [lia|].
  cbn [retry_loop]. unfold try_catch, mbind at 1.
  destruct (fn st) as [[v|error] st1]; [done|].
  destruct (isRateLimit error
            && negb (attempt =? maxRetries - 1)%nat) eqn:Hretry; [|done].
  apply andb_true_iff in Hretry as [_ Hlast].
  apply negb_true_iff, Nat.eqb_neq in Hlast.
  unfold mbind. cbn. apply IH; lia.
Qed.
End Retry.

Lemma contract_items_trace {World} (env : Env World) v st :
  trace (after (contract_items env v) st) = trace st ++ [IoRead v].
Proof.
  unfold after, contract_items, call.
  by destruct (ext_items env v (world st)).
Qed.

Lemma reads_of_retry_trace v attempt a :
  reads_of (retry_trace (IoRead v) attempt a) = replicate a v.
Proof.
  revert attempt. induction a as [|a IH]; intros attempt; [done|].
  cbn. destruct a as [|a]; [done|].
  f_equal. apply (IH (S attempt)).
Qed.

Lemma sleeps_of_retry_trace v attempt a :
  sleeps_of (retry_trace (IoRead v) attempt a)
  = map (fun k => (2 ^ Z.of_nat k * 1000)%Z) (seq attempt (a - 1)).
Proof.
  revert attempt. induction a as [|a IH]; intros attempt; [done|].
  cbn [retry_trace sleeps_of]. destruct a as [|a]; [done|].
  cbn [sleeps_of]. replace (S (S a) - 1) with (S a) by lia. cbn [seq map].
  f_equal. specialize (IH (S attempt)).
  replace (S a - 1) with a in IH by lia. exact IH.
Qed.

(** *** C6: the listing *)

Section Listing.
Context {World : Type} (env : Env World).

Lemma read_item_defined index st :
  fst (read_item env index st) <> Return None.
Proof. apply retry_loop_defined; lia. Qed.


(** The three ways an iteration of the loop can go. *)
Lemma items_body_cases index formattedItems st :
  match read_item env index st with
  | (Return (Some item), st1) =>
      items_body env index formattedItems st
      = (Return (Continue (formattedItems ++ [format_item index item])),
         after (sleep 50) st1)
  | (Return None, _) => False
  | (Throw error, st1) =>
      items_body env index formattedItems st
      = (Return (if isEndOfArray error then Break formattedItems
                 else Continue (formattedItems ++ [placeholder_item index])),
         st1)
  end.
Proof.
  pose proof (read_item_defined index st) as Hdef.
  unfold items_body, try_catch, mbind. unfold read_item in *.
  destruct (retryWithBackoff _ 3 st) as [[[item|]|error] st1]; cbn in *.
  - done.
  - congruence.
  - by destruct (isEndOfArray error).
Qed.

Lemma items_loop_scan n index formattedItems st :
  index + n = 1024 ->
  exists rest st',
    items_loop env n index formattedItems st
    = (Return (formattedItems ++ rest), st') /\
    scan env index st rest st'.
Proof.
  revert index formattedItems st.
  induction n as [|n IH]; intros index acc st Hn.
  - exists [], st. rewrite Nat.add_0_r in Hn. subst index.
    split; [by rewrite app_nil_r | constructor].
  - cbn [items_loop]. unfold mbind at 1.
    pose proof (items_body_cases index acc st) as Hbody.
    destruct (read_item env index st) as [[[item|]|error] st1] eqn:Hread;
      [| done |].
    + rewrite Hbody.
      destruct (IH (S index) (acc ++ [format_item index item])
                   (after (sleep 50) st1)) as (rest & st' & Hloop & Hscan);
        [lia|].
      exists (format_item index item :: rest), st'.
      rewrite Hloop, <- app_assoc. split; [done|].
      eapply scan_item; eauto. lia.
    + rewrite Hbody. destruct (isEndOfArray error) eqn:Hend.
      * exists [], st1. rewrite app_nil_r. split; [done|].
        eapply scan_end; eauto. lia.
      * destruct (IH (S index) (acc ++ [placeholder_item index]) st1)
          as (rest & st' & Hloop & Hscan); [lia|].
        exists (placeholder_item index :: rest), st'.
        rewrite Hloop, <- app_assoc. split; [done|].
        eapply scan_placeholder; eauto. lia.
Qed.


Lemma placeholder_item_id index :
  property "id" (placeholder_item index) = JNum (Z.of_nat index) /\
  property "isDeleted" (placeholder_item index) = JBool true /\
  keys (placeholder_item index) = item_keys.
Proof. done. Qed.

(** Along a scan, the entry at offset [j] was made for index
    [index + j]. *)
Lemma scan_entries index st rest st' :
  scan env index st rest st' ->
  length rest <= 1024 - index /\
  forall (j : nat) entry, rest !! j = Some entry ->
    entry = placeholder_item (index + j) \/
    exists item, entry = format_item (index + j) item.
Proof.
  induction 1 as [st|index st error st' Hi Hread Hend
                 |index st item st1 rest st' Hi Hread Hscan IH
                 |index st error st1 rest st' Hi Hread Hend Hscan IH].
  - split; [cbn; lia|]. by intros j entry.
  - split; [cbn; lia|]. by intros j entry.
  - destruct IH as [Hlen Hent]. split; [cbn; lia|].
    intros [|j] entry Hj; cbn in Hj.
    + simplify_eq. right. exists item. by rewrite Nat.add_0_r.
    + replace (index + S j) with (S index + j) by lia. by apply Hent.
  - destruct IH as [Hlen Hent]. split; [cbn; lia|].
    intros [|j] entry Hj; cbn in Hj.
    + simplify_eq. left. by rewrite Nat.add_0_r.
    + replace (index + S j) with (S index + j) by lia. by apply Hent.
Qed.


End Listing.



(** *** C10: the listing does not depend on the ciphertexts *)

Lemma format_item_erase index item :
  format_item index (set_encryptedPurchaserName "" item)
  = format_item index item.
Proof. done. Qed.

Lemma same_answer_format index a b :
  set_encryptedPurchaserName "" a = set_encryptedPurchaserName "" b ->
  format_item index a = format_item index b.
Proof.
  intros H. rewrite <- (format_item_erase index a),
                    <- (format_item_erase index b). by rewrite H.
Qed.

Section NonInterference.
Context {W1 W2 : Type} (env1 : Env W1) (env2 : Env W2).
Context (R : W1 -> W2 -> Prop).
Hypothesis envs_alike : alike env1 env2 R.

Lemma retry_loop_alike v maxRetries n attempt st1 st2 :
  R (world st1) (world st2) ->
  same_read R
    (retry_loop (contract_items env1 v) maxRetries n attempt st1)
    (retry_loop (contract_items env2 v) maxRetries n attempt st2).
Proof.
  revert attempt st1 st2.
  induction n as [|n IH]; intros attempt st1 st2 HR; [by split|].
  cbn [retry_loop]. unfold try_catch, mbind.
  unfold contract_items at 1 3. unfold call.
  destruct envs_alike as [_ Hitems].
  destruct (Hitems v _ _ HR) as [Hans HR'].
  destruct (ext_items env1 v (world st1)) as [[x|e1] w1'],
           (ext_items env2 v (world st2)) as [[y|e2] w2'];
    cbn in Hans, HR'; try done.
  subst e2.
  destruct (isRateLimit e1 && negb (attempt =? maxRetries - 1)%nat);
    [|by split].
  unfold sleep, emit. cbn. by apply IH.
Qed.

Lemma items_loop_alike n index formattedItems st1 st2 :
  R (world st1) (world st2) ->
  fst (items_loop env1 n index formattedItems st1)
  = fst (items_loop env2 n index formattedItems st2) /\
  R (world (snd (items_loop env1 n index formattedItems st1)))
    (world (snd (items_loop env2 n index formattedItems st2))).
Proof.
  revert index formattedItems st1 st2.
  induction n as [|n IH]; intros index acc st1 st2 HR; [by split|].
  cbn [items_loop]. unfold items_body.
  unfold try_catch, mbind, retryWithBackoff.
  destruct (retry_loop_alike (JNum (Z.of_nat index)) 3 3 0 st1 st2 HR)
    as [HR' Hres].
  destruct (retry_loop (contract_items env1 _) 3 3 0 st1)
    as [[[x|]|e1] st1'],
    (retry_loop (contract_items env2 _) 3 3 0 st2)
    as [[[y|]|e2] st2']; cbn in HR', Hres; try done.
  - cbn. rewrite (same_answer_format index x y Hres). by apply IH.
  - cbn. by apply IH.
  - subst e2. cbn. destruct (isEndOfArray e1); cbn; [by split|].
    by apply IH.
Qed.

Lemma handleGetItems_alike st1 st2 :
  R (world st1) (world st2) ->
  fst (handleGetItems env1 st1) = fst (handleGetItems env2 st2).
Proof.
  intros HR. unfold handleGetItems, try_catch, mbind.
  unfold initializeContract, call.
  destruct envs_alike as [Hinit _].
  destruct (Hinit _ _ HR) as [Hout HR'].
  destruct (ext_initialize env1 (world st1)) as [[[]|e1] w1'],
           (ext_initialize env2 (world st2)) as [[[]|e2] w2'];
    cbn in Hout, HR'; try done; [|by subst].
  unfold list_items.
  pose proof (items_loop_alike 1024 0 []
                {| world := w1'; trace := trace st1 ++ [IoInitialize] |}
                {| world := w2'; trace := trace st2 ++ [IoInitialize] |}
                HR') as [Heq _].
  destruct (items_loop env1 1024 0 [] _) as [[l1|e1] s1'],
           (items_loop env2 1024 0 [] _) as [[l2|e2] s2'];
    cbn in Heq; by simplify_eq.
Qed.
End NonInterference.

Lemma chain_read_alike v w1 w2 :
  erase_ciphertexts (chain_store w1) = erase_ciphertexts (chain_store w2) ->
  same_answer (chain_read v w1) (chain_read v w2).
Proof.
  intros H. unfold chain_read, items_getter, index.
  destruct (to_uint256 v) as [itemId|]; [|done].
  assert (Hl : set_encryptedPurchaserName ""
                 <$> items (chain_store w1) !! N.to_nat itemId
               = set_encryptedPurchaserName ""
                 <$> items (chain_store w2) !! N.to_nat itemId).
  { rewrite <- !list_lookup_fmap.
    unfold erase_ciphertexts in H. by injection H as _ ->. }
  destruct (items (chain_store w1) !! N.to_nat itemId),
           (items (chain_store w2) !! N.to_nat itemId);
    cbn in Hl; try done. cbn. congruence.
Qed.

Lemma chain_env_alike : alike chain_env chain_env chains_alike.
Proof.
  split.
  - intros w1 w2 H. by split.
  - intros v w1 w2 [Hs Hf]. cbn. unfold chain_items. rewrite Hf.
    destruct (chain_read_faults w2) as [|[e|] faults] eqn:Hf2; cbn.
    + split; [by apply chain_read_alike | split; [done | congruence] ].
    + by repeat split.
    + split; [by apply chain_read_alike | by split].
Qed.

Lemma entry_has_item_keys entry :
  (exists index, entry = placeholder_item index \/
                 exists item, entry = format_item index item) ->
  keys entry = item_keys /\
  property "encryptedPurchaserName" entry = JUndefined.
Proof.
  intros (index & [->|[item ->] ]); [done|].
  unfold format_item. by destruct (purchasedAt item =? 0)%N.
Qed.

(** C10. Every entry of the listing, read from the store or placeholder,
    has exactly the properties id, name, description, url, imageUrl,
    isPurchased, isDeleted and purchasedAt, and no encryptedPurchaserName.
    Two worlds that answer the reads alike up to the ciphertexts get the
    same response to GET /items; in particular two chains whose stores
    differ only in the encryptedPurchaserName of some items. *)
Theorem listing_hides_ciphertext :
  (forall World (env : Env World) st entries st',
     list_items env st = (Return entries, st') ->
     Forall (fun entry =>
               keys entry = item_keys /\
               property "encryptedPurchaserName" entry = JUndefined)
            entries) /\
  (forall W1 W2 (env1 : Env W1) (env2 : Env W2) R,
     alike env1 env2 R ->
     forall st1 st2, R (world st1) (world st2) ->
       fst (handleGetItems env1 st1) = fst (handleGetItems env2 st2)) /\
  (forall s1 s2,
     erase_ciphertexts s1 = erase_ciphertexts s2 ->
     fst (handleGetItems chain_env (start (chain_of s1)))
     = fst (handleGetItems chain_env (start (chain_of s2)))).
Proof.
  split; [|split].
  - intros World env st entries st' Hrun.
    destruct (items_loop_scan env 1024 0 [] st eq_refl)
      as (entries' & st'' & Hloop & Hscan).
    unfold list_items in Hrun. rewrite Hrun in Hloop. cbn in Hloop.
    injection Hloop as <- <-.
    destruct (scan_entries env 0 st entries st' Hscan) as [_ Hent].
    apply Forall_lookup_2. intros i entry Hi.
    apply entry_has_item_keys. exists i. by apply Hent.
  - intros W1 W2 env1 env2 R Halike st1 st2 HR.
    by apply (handleGetItems_alike env1 env2 R).
  - intros s1 s2 Hs.
    apply (handleGetItems_alike chain_env chain_env chains_alike
             chain_env_alike).
    by split.
Qed.

Lemma listing_hides_ciphertext_witness :
  let o := {| sender := 7%N; timestamp := 1700000000%N |} in
  let s := run [(o, CallAddItem "Blender" "" "" "")] (constructor o) in
  let s1 := step s (o, CallMarkAsPurchased 0%N "ciphertext of Ann") in
  let s2 := step s (o, CallMarkAsPurchased 0%N "ciphertext of Bob") in
  s1 <> s2 /\
  fst (handleGetItems chain_env (start (chain_of s1)))
  = fst (handleGetItems chain_env (start (chain_of s2))).
Proof.
  intros o s s1 s2. split; [discriminate|].
  destruct listing_hides_ciphertext as (_ & _ & H).
  apply (H s1 s2). reflexivity.
Defined.

(** *** C7: the retry policy *)

Lemma retryWithBackoff_policy {World A} (fn : M World A) st :
  retryWithBackoff fn 3 st = retry_policy fn st.
Proof.
  unfold retryWithBackoff, retry_policy, after.
  cbn [retry_loop]. unfold try_catch, mbind, ret, throw, sleep, emit.
  change (2 ^ Z.of_nat 0 * 1000)%Z with 1000%Z.
  change (2 ^ Z.of_nat 1 * 1000)%Z with 2000%Z.
  destruct (fn st) as [[v|e1] st1]; cbn; [done|].
  destruct (isRateLimit e1); cbn; [|done].
  match goal with |- context [fn ?x] => destruct (fn x) as [[v|e2] st2] end;
    cbn; [done|].
  destruct (isRateLimit e2); cbn; [|done].
  match goal with |- context [fn ?x] => destruct (fn x) as [[v|e3] st3] end;
    cbn; [done|].
  by rewrite andb_false_r.
Qed.

Ltac purchase_trace :=
  first
    [ exists []; split; [by rewrite app_nil_r | cbn; repeat split; lia]
    | eexists; split; [by rewrite <- ?app_assoc | cbn; repeat split; lia] ].

(** The purchase flow reads the item at most once and submits at most once,
    and never sleeps: nothing in it is retried. *)
Lemma handlePurchase_trace {World} (env : Env World) cfg request st :
  exists t,
    trace (after (handlePurchase env cfg request) st) = trace st ++ t /\
    length (List.filter is_read t) <= 1 /\
    length (List.filter is_submit t) <= 1 /\
    sleeps_of t = [].
Proof.
  unfold after, handlePurchase, handlePurchase_try, handlePurchase_catch,
    try_catch, mbind, ret, throw, initializeContract, contract_items,
    contract_markAsPurchased, tx_wait,
    encryptPurchaserName, submitPurchaseNotification, call, emit.
  unfold try_catch, mbind, ret, throw, call, emit.
  repeat (case_match; simplify_eq/=); purchase_trace.
Qed.

(** C7, as the relayer has it. [retryWithBackoff] with three attempts is the
    retry policy: transient failures are retried after 1000 ms and then
    2000 ms, the third failure and every failure that is not transient
    propagate. For any bound the call is attempted at most that many times
    and the delays between attempts are 1000, 2000, 4000, ... The listing
    makes its reads through it. The purchase flow does not: it reads the
    item at most once, submits at most once and never sleeps. *)
Theorem retry_policy_of_reads :
  (forall World A (fn : M World A) st,
     retryWithBackoff fn 3 st = retry_policy fn st) /\
  (forall World (env : Env World) v maxRetries st,
     exists a, a <= maxRetries /\
       trace (after (retryWithBackoff (contract_items env v) maxRetries) st)
       = trace st ++ retry_trace (IoRead v) 0 a /\
       sleeps_of (retry_trace (IoRead v) 0 a) = backoff_delays (a - 1)) /\
  backoff_delays 2 = [1000; 2000]%Z /\
  (forall World (env : Env World) index formattedItems st,
     items_body env index formattedItems st
     = try_catch
         (await item <- retry_policy
                          (contract_items env (JNum (Z.of_nat index))) ;
          match item with
          | None => throw (Error_ "Cannot read properties of undefined")
          | Some item =>
              perform sleep 50 ;
              ret (Continue (formattedItems ++ [format_item index item]))
          end)
         (fun error =>
            if isEndOfArray error then ret (Break formattedItems)
            else ret (Continue (formattedItems ++ [placeholder_item index])))
         st) /\
  (forall World (env : Env World) cfg request st,
     exists t,
       trace (after (handlePurchase env cfg request) st) = trace st ++ t /\
       length (List.filter is_read t) <= 1 /\
       length (List.filter is_submit t) <= 1 /\
       sleeps_of t = []).
Proof.
  split; [|split; [|split; [|split] ] ].
  - intros. apply retryWithBackoff_policy.
  - intros World env v maxRetries st.
    destruct (retry_loop_trace (contract_items env v) (IoRead v)
                (contract_items_trace env v) maxRetries maxRetries 0 st)
      as (a & Ha & _ & Ht); [lia|].
    exists a. split; [done|]. split; [done|].
    apply sleeps_of_retry_trace.
  - done.
  - intros World env index acc st.
    unfold items_body, try_catch, mbind.
    by rewrite retryWithBackoff_policy.
  - intros. apply handlePurchase_trace.
Qed.

(** C7 as the specification words it fails for the purchase flow. Against
    a provider that is rate-limited once, the
    read, and likewise the submission, is attempted once and the request is
    answered 500, although the retried call would have succeeded. *)
Lemma purchase_not_retried_counterexample :
  isRateLimit rate_limit_error = true /\
  (exists response,
     fst (handlePurchase chain_env test_config good_request
            (start failing_read)) = Return response /\
     statusCode response = 500%Z) /\
  trace (after (handlePurchase chain_env test_config good_request)
               (start failing_read))
  = [IoInitialize; IoRead (JNum 0)] /\
  fst (retryWithBackoff (contract_items chain_env (JNum 0)) 3
         (start failing_read))
  = Return (Some (new_item "Blender" "" "" "")) /\
  (exists response,
     fst (handlePurchase chain_env test_config good_request
            (start failing_submit)) = Return response /\
     statusCode response = 500%Z) /\
  map is_submit
      (trace (after (handlePurchase chain_env test_config good_request)
                    (start failing_submit)))
  = [false; false; false; true] /\
  chain_store (world (after (handlePurchase chain_env test_config
                               good_request) (start failing_submit)))
  = one_item /\
  (exists s' ev,
     markAsPurchased {| sender := 9%N; timestamp := 1700000000%N |}
                     0%N "ciphertext" one_item = Success (s', ev)).
Proof.
  split; [reflexivity|].
  split; [eexists; split; [vm_compute; reflexivity | reflexivity] |].
  split; [reflexivity|]. split; [reflexivity|].
  split; [eexists; split; [vm_compute; reflexivity | reflexivity] |].
  split; [reflexivity|]. split; [reflexivity|].
  eexists _, _. vm_compute. reflexivity.
Qed.

(** *** C8: a rejection at submission time *)

Lemma append_String c (p post : string) :
  String c p +:+ post = String c (p +:+ post).
Proof. reflexivity. Qed.

Lemma append_Empty (post : string) : "" +:+ post = post.
Proof. reflexivity. Qed.

Ltac norm_append := rewrite ?append_String, ?append_Empty in *.

Lemma prefix_app (p s : string) :
  String.prefix p s = true <-> exists post, s = p +:+ post.
Proof.
  revert p. induction s as [|d s IH]; intros [|c p]; cbn.
  - split; [by exists "" | done].
  - split; [done|]. intros [post H]. by norm_append.
  - split; [by exists (String d s) | done].
  - destruct (Ascii.ascii_dec c d) as [->|Hne].
    + rewrite IH. split; intros [post H]; exists post; norm_append;
        [by rewrite H | by injection H].
    + split; [done|]. intros [post H]. norm_append. congruence.
Qed.









(** ** Part VI. Further properties of the registry contract *)

(** *** The owner check *)

Lemma exec_not_owner msg c s :
  owner_only c = true ->
  sender msg <> owner s ->
  exec msg c s = Revert "Only owner can call this function".
Proof.
  intros Hc Hne. apply N.eqb_neq in Hne.
  destruct c; try discriminate; unfold_ops; cbn; by rewrite Hne.
Qed.

(** X1. Every operation under [onlyOwner], called by anyone but the owner,
    reverts with the owner error whatever its arguments and whatever the
    state of the item it names, and changes nothing. *)
Theorem owner_gate msg c s :
  owner_only c = true ->
  sender msg <> owner s ->
  exec msg c s = Revert "Only owner can call this function" /\
  step s (msg, c) = s.
Proof.
  intros Hc Hne. pose proof (exec_not_owner msg c s Hc Hne) as E.
  split; [done|]. unfold step; cbn. by rewrite E.
Qed.

Lemma owner_gate_witness :
  let o := {| sender := 7%N; timestamp := 1%N |} in
  let guest := {| sender := 4660%N; timestamp := 2%N |} in
  let s := run [(o, CallAddItem "Item" "Desc" "url" "img")] (constructor o) in
  exec guest (CallUpdateItem 0%N "New Name" "New Desc" "url" "img") s
  = Revert "Only owner can call this function" /\
  step s (guest, CallUpdateItem 0%N "New Name" "New Desc" "url" "img") = s.
Proof.
  intros o guest s.
  apply (owner_gate guest (CallUpdateItem 0%N "New Name" "New Desc" "url"
                             "img") s);
    [reflexivity | discriminate].
Defined.

(** *** updateItem *)

Lemma lookup_cases (s : Store) (id : uint256) :
  match items s !! N.to_nat id with
  | Some _ => (id <? N.of_nat (length (items s)))%N = true
  | None => (id <? N.of_nat (length (items s)))%N = false
  end.
Proof.
  destruct (items s !! N.to_nat id) as [it|] eqn:Hit.
  - apply valid_lookup. eauto.
  - apply not_true_is_false. rewrite valid_lookup, Hit. by intros [? ?].
Qed.

(** X2. [updateItem] succeeds exactly when the caller is the owner, the id
    is in range and the item is not deleted; otherwise it fails with the
    error of the first of these that is violated. On success the four
    descriptive fields are the new ones, the purchase fields and the
    deletion flag of the item are kept, and the owner, the length and every
    other item are untouched. *)
Theorem updateItem_contract msg id n d u i s :
  let r := updateItem msg id n d u i s in
  ((exists s' ev, r = Success (s', ev)) <->
   (sender msg = owner s /\
    exists it, items s !! N.to_nat id = Some it /\ isDeleted it = false)) /\
  (forall s' ev, r = Success (s', ev) ->
     owner s' = owner s /\ length (items s') = length (items s) /\
     ev = [ItemUpdated id n] /\
     (forall j : nat, j <> N.to_nat id -> items s' !! j = items s !! j) /\
     exists it it', items s !! N.to_nat id = Some it /\
       items s' !! N.to_nat id = Some it' /\
       name it' = n /\ description it' = d /\ url it' = u /\
       imageUrl it' = i /\
       isPurchased it' = isPurchased it /\ isDeleted it' = false /\
       encryptedPurchaserName it' = encryptedPurchaserName it /\
       purchasedAt it' = purchasedAt it) /\
  ((forall s' ev, r <> Success (s', ev)) ->
     if negb (sender msg =? owner s)%N then fails_with r NotOwner
     else match items s !! N.to_nat id with
          | None => fails_with r InvalidId
          | Some it => fails_with r ItemDeleted
          end).
Proof.
  cbn zeta. pose proof (lookup_cases s id) as Hv.
  split; [|split].
  - split.
    + intros (s' & ev & H).
      apply (exec_success msg (CallUpdateItem id n d u i)) in H.
      destruct H as (Ho & _ & it & Hit & Hd & _). eauto.
    + intros (Ho & it & Hit & Hd). apply N.eqb_eq in Ho.
      rewrite Hit in Hv. unfold_ops. rewrite Ho, Hv, Hit, Hd. cbn. eauto.
  - intros s' ev H. pose proof H as H'.
    apply (exec_success msg (CallUpdateItem id n d u i)) in H'.
    destruct H' as (Ho & Ho' & it & Hit & Hd & Hitems).
    split; [done|]. rewrite Hitems.
    split; [by rewrite length_insert|].
    split.
    { unfold_ops. repeat case_match; by simplify_eq. }
    split; [intros j Hj; by rewrite list_lookup_insert_ne|].
    eexists it, _. split; [done|]. split.
    { apply list_lookup_insert_eq. by eapply lookup_lt_Some. }
    by cbn.
  - intros Hfail.
    destruct (sender msg =? owner s)%N eqn:Ho; cbn.
    + destruct (items s !! N.to_nat id) as [it|] eqn:Hit.
      * destruct (isDeleted it) eqn:Hd.
        -- assert (updateItem msg id n d u i s
                   = Revert "Cannot update deleted item") as ->
             by (unfold_ops; by rewrite Ho, Hv, Hit, Hd).
           by apply fails_with_revert.
        -- exfalso. unfold_ops. rewrite Ho, Hv, Hit, Hd in Hfail.
           cbn in Hfail. by eapply Hfail.
      * assert (updateItem msg id n d u i s = Revert "Invalid item ID") as ->
          by (unfold_ops; by rewrite Ho, Hv).
        by apply fails_with_revert.
    + assert (updateItem msg id n d u i s
              = Revert "Only owner can call this function") as ->
        by (unfold_ops; by rewrite Ho).
      by apply fails_with_revert.
Qed.

Lemma updateItem_contract_witness :
  let o := {| sender := 7%N; timestamp := 1%N |} in
  let guest := {| sender := 4660%N; timestamp := 2%N |} in
  let s := run [(o, CallAddItem "Item 1" "Desc 1" "url1" "img1");
                (guest, CallMarkAsPurchased 0%N "enc")] (constructor o) in
  exists it',
    items (step s (o, CallUpdateItem 0%N "Item 1 Updated" "New Description"
                        "url2" "img2")) !! 0%nat = Some it' /\
    name it' = "Item 1 Updated" /\ isPurchased it' = true /\
    encryptedPurchaserName it' = "enc" /\ purchasedAt it' = 2%N.
Proof.
  intros o guest s.
  destruct (updateItem_contract o 0%N "Item 1 Updated" "New Description"
              "url2" "img2" s) as (_ & H & _).
  destruct (H _ _ eq_refl)
    as (_ & _ & _ & _ & it & it' & Hit & Hit' & Hn & _ & _ & _ & Hp & _
        & He & Ht).
  exists it'. vm_compute in Hit. injection Hit as <-.
  repeat split; assumption.
Defined.

(** *** resetItem *)

Lemma markPurchased_valid msg id enc s it :
  items s !! N.to_nat id = Some it ->
  isDeleted it = false -> isPurchased it = false -> enc <> "" ->
  exists s' ev, markAsPurchased msg id enc s = Success (s', ev).
Proof.
  intros Hit Hd Hp He.
  assert (Hv : (id <? N.of_nat (length (items s)))%N = true)
    by (apply valid_lookup; eauto).
  apply string_length_pos in He.
  unfold_ops. rewrite Hv, Hit, Hd, Hp, He. cbn. eauto.
Qed.


(** X3. [resetItem] succeeds exactly when the caller is the owner, the id is
    in range and the item is not deleted, whether or not the item is
    purchased. On success the item is unpurchased with an empty name and
    time zero, its descriptive fields and every other item are untouched,
    and the item can be purchased again: [markAsPurchased] with a non-empty
    name then succeeds for any caller. Resetting twice is resetting once. *)
Theorem resetItem_contract msg id s :
  let r := resetItem msg id s in
  ((exists s' ev, r = Success (s', ev)) <->
   (sender msg = owner s /\
    exists it, items s !! N.to_nat id = Some it /\ isDeleted it = false)) /\
  (forall s' ev, r = Success (s', ev) ->
     owner s' = owner s /\ length (items s') = length (items s) /\
     (forall j : nat, j <> N.to_nat id -> items s' !! j = items s !! j) /\
     (exists it it', items s !! N.to_nat id = Some it /\
        items s' !! N.to_nat id = Some it' /\ cleared it' /\
        name it' = name it /\ description it' = description it /\
        url it' = url it /\ imageUrl it' = imageUrl it /\
        isDeleted it' = false) /\
     (forall msg2 enc, enc <> "" ->
        exists s2 ev2, markAsPurchased msg2 id enc s' = Success (s2, ev2)) /\
     step s' (msg, CallResetItem id) = s').
Proof.
  cbn zeta. pose proof (lookup_cases s id) as Hv. split.
  - split.
    + intros (s' & ev & H).
      apply (exec_success msg (CallResetItem id)) in H.
      destruct H as (Ho & _ & it & Hit & Hd & _). eauto.
    + intros (Ho & it & Hit & Hd). apply N.eqb_eq in Ho.
      rewrite Hit in Hv. unfold_ops. rewrite Ho, Hv, Hit, Hd. cbn. eauto.
  - intros s' ev H.
    apply (exec_success msg (CallResetItem id)) in H.
    destruct H as (Ho & Ho' & it & Hit & Hd & Hitems).
    assert (Hlt : N.to_nat id < length (items s))
      by (by eapply lookup_lt_Some).
    assert (Hit' : items s' !! N.to_nat id
                   = Some (set_purchasedAt 0%N
                            (set_encryptedPurchaserName ""
                              (set_isPurchased false it))))
      by (rewrite Hitems; by apply list_lookup_insert_eq).
    split; [done|]. split; [by rewrite Hitems, length_insert|].
    split; [intros j Hj; by rewrite Hitems, list_lookup_insert_ne|].
    split; [eexists it, _; split; [done|]; split; [exact Hit'|]; by cbn|].
    split.
    + intros msg2 enc Henc.
      destruct (markPurchased_valid msg2 id enc s' _ Hit') as (s2 & ev2 & E);
        try done.
      eauto.
    + unfold step, exec; cbn.
      assert (Hv' : (id <? N.of_nat (length (items s')))%N = true)
        by (apply valid_lookup; eauto).
      apply N.eqb_eq in Ho. unfold_ops. rewrite Ho', Ho, Hv', Hit'. cbn.
      destruct s' as [o' its']. cbn in *. subst o'. rewrite Hd. cbn.
      f_equal. by rewrite Hitems, list_insert_insert_eq.
Qed.

Lemma resetItem_contract_witness :
  let o := {| sender := 7%N; timestamp := 1%N |} in
  let s := run [(o, CallAddItem "Glasses" "Wine glasses" "url" "img");
                (o, CallMarkAsPurchased 0%N "encrypted_name")]
               (constructor o) in
  let s' := step s (o, CallResetItem 0%N) in
  (exists it', items s' !! 0%nat = Some it' /\ cleared it' /\
               name it' = "Glasses") /\
  exists s2 ev2,
    markAsPurchased {| sender := 4660%N; timestamp := 5%N |} 0%N "again" s'
    = Success (s2, ev2).
Proof.
  intros o s s'.
  destruct (resetItem_contract o 0%N s) as (_ & H).
  destruct (H s' [ItemResetByOwner 0%N] eq_refl)
    as (_ & _ & _ & (it & it' & Hit & Hit' & Hc & Hn & _) & Hm & _).
  split.
  - exists it'. vm_compute in Hit. injection Hit as <-.
    split; [exact Hit'|]. split; [exact Hc | exact Hn].
  - apply Hm. discriminate.
Defined.

(** *** The purchase fields of an unpurchased item *)

Lemma step_unpurchased_cleared s tx :
  Forall unpurchased_cleared (items s) ->
  Forall unpurchased_cleared (items (step s tx)).
Proof.
  destruct tx as [msg c]. intros Hs.
  destruct (step_cases s msg c) as [(s' & ev & E & ->) | [_ ->] ]; [|done].
  apply exec_success in E. destruct c; break_hyps;
    repeat match goal with H : items s' = _ |- _ => rewrite H end;
    try done.
  - apply Forall_app. split; [done|]. apply Forall_singleton. by intros ?.
  - apply Forall_insert; [done|].
    eapply Forall_lookup_1 in Hs; [|eassumption]. exact Hs.
  - apply Forall_insert; [done|].
    eapply Forall_lookup_1 in Hs; [|eassumption]. exact Hs.
  - apply Forall_insert; [done|]. intros ?. discriminate.
  - apply Forall_insert; [done|]. by intros ?.
Qed.

Lemma run_unpurchased_cleared txs s :
  Forall unpurchased_cleared (items s) ->
  Forall unpurchased_cleared (items (run txs s)).
Proof.
  revert s. induction txs as [|tx txs IH]; intros s Hs; cbn; [done|].
  apply IH. by apply step_unpurchased_cleared.
Qed.

Lemma reachable_unpurchased_cleared s :
  reachable s -> Forall unpurchased_cleared (items s).
Proof.
  intros (deployer & txs & ->). apply run_unpurchased_cleared. constructor.
Qed.

(** X4. The converse of I2 is an invariant as well, with no assumption on
    the block times: in every state of a deployed registry an item that is
    not purchased has an empty encrypted name and purchase time zero. *)
Theorem unpurchased_items_cleared s (i : nat) it :
  reachable s ->
  items s !! i = Some it ->
  isPurchased it = false ->
  encryptedPurchaserName it = "" /\ purchasedAt it = 0%N.
Proof.
  intros Hreach Hi.
  pose proof (reachable_unpurchased_cleared s Hreach) as H.
  eapply Forall_lookup_1 in H; [|eassumption]. exact H.
Qed.

Lemma unpurchased_items_cleared_witness :
  let o := {| sender := 7%N; timestamp := 0%N |} in
  let s := run [(o, CallAddItem "Glasses" "" "" "");
                (o, CallMarkAsPurchased 0%N "enc"); (o, CallResetItem 0%N)]
               (constructor o) in
  encryptedPurchaserName (new_item "Glasses" "" "" "") = "" /\
  purchasedAt (new_item "Glasses" "" "" "") = 0%N.
Proof.
  intros o s.
  apply (unpurchased_items_cleared s 0 (new_item "Glasses" "" "" ""));
    [by eexists _, _ | reflexivity | reflexivity].
Defined.

(** X5. Purchase and reset undo each other: in a deployed registry, marking
    an available item as purchased and then resetting it as the owner gives
    back the storage exactly as it was. *)
Theorem purchase_then_reset s guest o id enc it :
  reachable s ->
  items s !! N.to_nat id = Some it ->
  isDeleted it = false -> isPurchased it = false ->
  enc <> "" ->
  sender o = owner s ->
  step (step s (guest, CallMarkAsPurchased id enc)) (o, CallResetItem id) = s.
Proof.
  intros Hreach Hit Hd Hp Henc Ho.
  pose proof (reachable_unpurchased_cleared s Hreach) as Hcleared.
  eapply Forall_lookup_1 in Hcleared; [|exact Hit].
  destruct (Hcleared Hp) as [He Ht].
  destruct (markPurchased_valid guest id enc s it Hit Hd Hp Henc)
    as (s1 & ev1 & E1).
  pose proof E1 as E1'.
  apply (exec_success guest (CallMarkAsPurchased id enc)) in E1'.
  destruct E1' as (Ho1 & _ & it0 & Hit0 & _ & _ & Hitems1).
  simplify_eq.
  assert (Hstep1 : step s (guest, CallMarkAsPurchased id enc) = s1)
    by (unfold step, exec; cbn; by rewrite E1).
  rewrite Hstep1.
  assert (Hlt : N.to_nat id < length (items s))
    by (by eapply lookup_lt_Some).
  assert (Hv1 : (id <? N.of_nat (length (items s1)))%N = true).
  { apply N.ltb_lt. rewrite Hitems1, length_insert. lia. }
  unfold step, exec; cbn. apply N.eqb_eq in Ho.
  unfold_ops. rewrite Ho1, Ho, Hv1, Hitems1. cbn.
  rewrite list_lookup_insert_eq by done. cbn. rewrite Hd. cbn.
  rewrite list_insert_insert_eq.
  destruct s as [os its]. cbn in *. f_equal.
  apply list_insert_id. rewrite Hit. f_equal.
  destruct it; cbn in *. by subst.
Qed.

Lemma purchase_then_reset_witness :
  let o := {| sender := 7%N; timestamp := 1%N |} in
  let guest := {| sender := 4660%N; timestamp := 9%N |} in
  let s := run [(o, CallAddItem "Glasses" "Wine glasses" "url" "img")]
               (constructor o) in
  step (step s (guest, CallMarkAsPurchased 0%N "encrypted_name"))
       (o, CallResetItem 0%N) = s.
Proof.
  intros o guest s.
  apply (purchase_then_reset s guest o 0%N "encrypted_name"
           (new_item "Glasses" "Wine glasses" "url" "img"));
    [by eexists _, _ | reflexivity | reflexivity | reflexivity
    | discriminate | reflexivity].
Defined.

(** *** transferOwnership and the owner *)

(** X6. [transferOwnership] succeeds exactly when the caller is the owner
    and the target is not the zero address; it then replaces the owner and
    nothing else and emits no event. With the zero address the owner's call
    fails with the null-target error and the owner stays. After a transfer
    to another address the previous owner is locked out of every owner-only
    operation, and the new owner can add items. *)
Theorem transferOwnership_contract msg newOwner s :
  let r := transferOwnership msg newOwner s in
  ((exists s' ev, r = Success (s', ev)) <->
   (sender msg = owner s /\ newOwner <> 0%N)) /\
  (sender msg = owner s -> newOwner = 0%N ->
   fails_with r NullTarget /\
   owner (step s (msg, CallTransferOwnership newOwner)) = owner s) /\
  (forall s' ev, r = Success (s', ev) ->
     owner s' = newOwner /\ items s' = items s /\ ev = [] /\
     (newOwner <> sender msg ->
      forall c, owner_only c = true ->
        exec msg c s' = Revert "Only owner can call this function") /\
     (forall msg2 n d u i, sender msg2 = newOwner ->
        exists s2 ev2, addItem msg2 n d u i s' = Success (s2, ev2))).
Proof.
  cbn zeta. split; [|split].
  - split.
    + intros (s' & ev & H).
      apply (exec_success msg (CallTransferOwnership newOwner)) in H.
      by destruct H as (Ho & Hn & _).
    + intros [Ho Hn]. apply N.eqb_eq in Ho. apply N.eqb_neq in Hn.
      unfold_ops. rewrite Ho, Hn. cbn. eauto.
  - intros Ho ->. apply N.eqb_eq in Ho.
    assert (E : transferOwnership msg 0%N s
                = Revert "New owner cannot be zero address")
      by (unfold_ops; by rewrite Ho).
    split; [rewrite E; by apply fails_with_revert|].
    unfold step, exec; cbn. by rewrite E.
  - intros s' ev H. pose proof H as H'.
    apply (exec_success msg (CallTransferOwnership newOwner)) in H'.
    destruct H' as (Ho & Hn & Ho' & Hitems).
    split; [done|]. split; [done|].
    split; [unfold_ops; repeat case_match; by simplify_eq|].
    split.
    + intros Hne c Hc. apply exec_not_owner; [done | congruence].
    + intros msg2 n d u i H2.
      assert ((sender msg2 =? owner s')%N = true) as Ho2
        by (apply N.eqb_eq; congruence).
      unfold_ops. rewrite Ho2. cbn.
      match goal with
      | |- context [(1 <=? ?x)%N] =>
          assert ((1 <=? x)%N = true) as ->
            by (apply N.leb_le; rewrite length_app; cbn; lia)
      end.
      eauto.
Qed.

Lemma transferOwnership_contract_witness :
  let o := {| sender := 7%N; timestamp := 1%N |} in
  let s := constructor o in
  let s' := step s (o, CallTransferOwnership 22136%N) in
  owner s' = 22136%N /\
  exec o (CallAddItem "Item" "Desc" "url" "img") s'
  = Revert "Only owner can call this function" /\
  owner (step s (o, CallTransferOwnership 0%N)) = 7%N.
Proof.
  intros o s s'.
  destruct (transferOwnership_contract o 22136%N s) as (_ & _ & H).
  destruct (H s' [] eq_refl) as (Ho & _ & _ & Hlock & _).
  split; [exact Ho|]. split.
  - apply Hlock; [discriminate | reflexivity].
  - destruct (transferOwnership_contract o 0%N s) as (_ & H0 & _).
    apply H0; reflexivity.
Defined.

Lemma step_owner s tx :
  is_transfer (snd tx) = false -> owner (step s tx) = owner s.
Proof.
  destruct tx as [msg c]. intros Hc.
  destruct (step_cases s msg c) as [(s' & ev & E & ->) | [_ ->] ]; [|done].
  apply exec_success in E. destruct c; try discriminate; by break_hyps.
Qed.

Lemma step_owner_nonzero s tx : owner s <> 0%N -> owner (step s tx) <> 0%N.
Proof.
  destruct tx as [msg c]. intros Hs.
  destruct (step_cases s msg c) as [(s' & ev & E & ->) | [_ ->] ]; [|done].
  apply exec_success in E. destruct c; break_hyps; congruence.
Qed.

(** X7. The owner changes through [transferOwnership] only: every other
    transaction, successful or not, leaves the owner as it is. A registry
    deployed from a non-zero address never has the zero address as owner,
    so it cannot be left without an owner. *)
Theorem owner_invariant :
  (forall s tx, is_transfer (snd tx) = false -> owner (step s tx) = owner s) /\
  (forall deployer txs,
     Forall (fun tx => is_transfer (snd tx) = false) txs ->
     owner (run txs (constructor deployer)) = sender deployer) /\
  (forall deployer txs,
     sender deployer <> 0%N ->
     owner (run txs (constructor deployer)) <> 0%N).
Proof.
  split; [apply step_owner|]. split.
  - intros deployer txs.
    change (sender deployer) with (owner (constructor deployer)).
    generalize (constructor deployer).
    induction txs as [|tx txs IH]; intros s Hall; cbn; [done|].
    inversion Hall; subst. rewrite IH by done. by apply step_owner.
  - intros deployer txs.
    change (sender deployer) with (owner (constructor deployer)).
    generalize (constructor deployer).
    induction txs as [|tx txs IH]; intros s Hs; cbn; [done|].
    apply IH. by apply step_owner_nonzero.
Qed.

Lemma owner_invariant_witness :
  let o := {| sender := 7%N; timestamp := 1%N |} in
  let guest := {| sender := 4660%N; timestamp := 2%N |} in
  owner (run [(o, CallAddItem "Item" "Desc" "url" "img");
              (guest, CallMarkAsPurchased 0%N "enc");
              (guest, CallTransferOwnership 4660%N);
              (o, CallTransferOwnership 0%N)] (constructor o)) <> 0%N.
Proof.
  intros o guest.
  destruct owner_invariant as (_ & _ & H). apply H. discriminate.
Defined.

(** *** getItem and the soft delete *)



(** *** The views across a transaction *)

Lemma filter_insert_length {A} (f : A -> bool) (l : list A) (i : nat) x y :
  l !! i = Some x ->
  length (List.filter f (<[i:=y]> l)) + (if f x then 1 else 0)
  = length (List.filter f l) + (if f y then 1 else 0).
Proof.
  revert i. induction l as [|z l IH]; intros [|i] Hi; cbn in *;
    try discriminate.
  - injection Hi as ->. destruct (f x), (f y); cbn; lia.
  - specialize (IH i Hi). destruct (f z); cbn; [f_equal|]; exact IH.
Qed.

Lemma views_are_filters s :
  (N.of_nat (length (items s)) < uint256_limit)%N ->
  getAllItems s = Success (List.filter not_deleted (items s)) /\
  getAvailableItems s = Success (List.filter available (items s)) /\
  getPurchasedItems s = Success (List.filter purchased (items s)) /\
  getItemCount s
  = Success (N.of_nat (length (List.filter not_deleted (items s)))).
Proof.
  intros Hfit.
  unfold getAllItems, getAvailableItems, getPurchasedItems, getItemCount.
  rewrite !count_matching_spec by done. cbn [bind].
  by rewrite !copy_matching_spec by done.
Qed.

(** X9. What a successful transaction does to the views, on a registry
    whose length fits a [uint256]. [addItem] appends the new item to
    [getAllItems] and [getAvailableItems] and raises [getItemCount] by one;
    [removeItem] lowers [getItemCount] by one; [markAsPurchased] moves one
    item from the available to the purchased view; [resetItem] moves at most
    one item back; [updateItem] and [transferOwnership] change no view's
    size. *)
Theorem views_across_transaction msg c s s' ev :
  exec msg c s = Success (s', ev) ->
  (N.of_nat (length (items s')) < uint256_limit)%N ->
  exists all avail purch all' avail' purch',
    getAllItems s = Success all /\ getAvailableItems s = Success avail /\
    getPurchasedItems s = Success purch /\
    getItemCount s = Success (N.of_nat (length all)) /\
    getAllItems s' = Success all' /\ getAvailableItems s' = Success avail' /\
    getPurchasedItems s' = Success purch' /\
    getItemCount s' = Success (N.of_nat (length all')) /\
    match c with
    | CallAddItem n d u i =>
        all' = all ++ [new_item n d u i] /\
        avail' = avail ++ [new_item n d u i] /\ purch' = purch
    | CallRemoveItem _ =>
        length all' + 1 = length all /\
        length avail' + length purch' + 1 = length avail + length purch
    | CallMarkAsPurchased _ _ =>
        length all' = length all /\ length avail' + 1 = length avail /\
        length purch' = length purch + 1
    | CallResetItem _ =>
        length all' = length all /\ length purch' <= length purch /\
        length avail' + length purch' = length avail + length purch
    | CallUpdateItem _ _ _ _ _ =>
        length all' = length all /\ length avail' = length avail /\
        length purch' = length purch
    | CallTransferOwnership _ =>
        all' = all /\ avail' = avail /\ purch' = purch
    end.
Proof.
  intros E Hfit'.
  assert (Hfit : (N.of_nat (length (items s)) < uint256_limit)%N).
  { pose proof (step_length s (msg, c)) as Hlen.
    unfold step in Hlen; cbn in Hlen. rewrite E in Hlen. lia. }
  destruct (views_are_filters s Hfit) as (H1 & H2 & H3 & H4).
  destruct (views_are_filters s' Hfit') as (H1' & H2' & H3' & H4').
  do 6 eexists.
  do 8 (split; [eassumption|]).
  clear H1 H2 H3 H4 H1' H2' H3' H4' Hfit Hfit'.
  apply exec_success in E.
  destruct c; break_hyps;
    repeat match goal with H : items s' = _ |- _ => rewrite H end;
    try match goal with
        | Hit : items s !! ?i = Some ?x |- context [<[?i := ?y]> _] =>
            pose proof (filter_insert_length not_deleted _ _ _ y Hit) as F1;
            pose proof (filter_insert_length available _ _ _ y Hit) as F2;
            pose proof (filter_insert_length purchased _ _ _ y Hit) as F3;
            unfold not_deleted at 2 4 in F1;
            unfold available at 2 4 in F2;
            unfold purchased at 2 4 in F3;
            cbn in F1, F2, F3 |- *;
            repeat match goal with
                   | H : isDeleted x = _ |- _ => rewrite H in F1, F2, F3
                   | H : isPurchased x = _ |- _ => rewrite H in F1, F2, F3
                   end;
            destruct (isPurchased x); cbn in F1, F2, F3; lia
        end.
  - rewrite !List.filter_app. cbn. by rewrite !app_nil_r.
  - done.
Qed.

Lemma views_across_transaction_witness :
  let o := {| sender := 7%N; timestamp := 1%N |} in
  let guest := {| sender := 4660%N; timestamp := 2%N |} in
  let s := run [(o, CallAddItem "Item 1" "Desc 1" "url1" "img1");
                (o, CallAddItem "Item 2" "Desc 2" "url2" "img2")]
               (constructor o) in
  let s' := step s (guest, CallMarkAsPurchased 1%N "encrypted_name") in
  exists avail purch avail' purch',
    getAvailableItems s = Success avail /\
    getPurchasedItems s = Success purch /\
    getAvailableItems s' = Success avail' /\
    getPurchasedItems s' = Success purch' /\
    length avail' + 1 = length avail /\
    length purch' = length purch + 1.
Proof.
  intros o guest s s'.
  destruct (views_across_transaction guest
              (CallMarkAsPurchased 1%N "encrypted_name") s s'
              [ItemPurchased 1%N 2%N] eq_refl)
    as (all & avail & purch & all' & avail' & purch' & _ & Ha & Hp & _ & _
        & Ha' & Hp' & _ & _ & H1 & H2).
  - vm_compute. reflexivity.
  - exists avail, purch, avail', purch'. by repeat split.
Defined.

(** *** The life of an item *)

Lemma insert_lookup_cases {A} (l : list A) (j i : nat) x0 x y :
  l !! j = Some x0 -> l !! i = Some x ->
  exists x', <[j:=y]> l !! i = Some x' /\
    ((i <> j /\ x' = x) \/ (i = j /\ x' = y /\ x0 = x)).
Proof.
  intros Hj Hi. destruct (decide (i = j)) as [->|Hne].
  - exists y. split; [|right; split; [done|]; split; congruence].
    apply list_lookup_insert_eq. by eapply lookup_lt_Some.
  - exists x. split; [by rewrite list_lookup_insert_ne | by left].
Qed.

(** X10. The state of an item moves only along the arrows of its life
    cycle, one transaction at a time. A deleted item never changes. An item
    changes state only through a call that names it: available to purchased
    through [markAsPurchased] by any caller, purchased to available through
    [resetItem] by the owner, and to deleted through [removeItem] by the
    owner. *)
Theorem item_lifecycle s msg c (i : nat) it :
  items s !! i = Some it ->
  exists it', items (step s (msg, c)) !! i = Some it' /\
    (item_state it = Deleted -> it' = it) /\
    (item_state it' <> item_state it ->
     exists id, N.to_nat id = i /\
       ((item_state it = Available /\ item_state it' = Purchased /\
         exists e, c = CallMarkAsPurchased id e) \/
        (item_state it = Purchased /\ item_state it' = Available /\
         c = CallResetItem id /\ sender msg = owner s) \/
        (item_state it <> Deleted /\ item_state it' = Deleted /\
         c = CallRemoveItem id /\ sender msg = owner s))).
Proof.
  intros Hi.
  destruct (step_cases s msg c) as [(s' & ev & E & ->) | [_ ->] ];
    [|exists it; by repeat split].
  apply exec_success in E.
  destruct c as [n d u im|id n d u im|id|id e|id|o].
  - destruct E as (_ & _ & -> & _). exists it.
    split; [by apply lookup_app_l_Some | by split].
  - destruct E as (_ & _ & it0 & Hit0 & Hd0 & ->).
    destruct (insert_lookup_cases (items s) (N.to_nat id) i it0 it
                (set_imageUrl im (set_url u (set_description d
                   (set_name n it0)))) Hit0 Hi)
      as (it' & Hit' & Hcase);
      exists it'; (split; [exact Hit'|]);
      destruct Hcase as [ [_ ->] | (Heq & -> & ->) ]; [by split|].
    unfold item_state; cbn. rewrite Hd0.
    split; [by destruct (isPurchased it) | intros H; by destruct H].
  - destruct E as (Ho & _ & it0 & Hit0 & Hd0 & ->).
    destruct (insert_lookup_cases (items s) (N.to_nat id) i it0 it
                (set_isDeleted true it0) Hit0 Hi)
      as (it' & Hit' & Hcase);
      exists it'; (split; [exact Hit'|]);
      destruct Hcase as [ [_ ->] | (Heq & -> & ->) ]; [by split|].
    unfold item_state; cbn. rewrite Hd0.
    split; [by destruct (isPurchased it)|].
    intros _. exists id. split; [done|]. right. right.
    by destruct (isPurchased it).
  - destruct E as (_ & _ & it0 & Hit0 & Hd0 & Hp0 & ->).
    destruct (insert_lookup_cases (items s) (N.to_nat id) i it0 it
                (set_purchasedAt (timestamp msg)
                   (set_encryptedPurchaserName e (set_isPurchased true it0)))
                Hit0 Hi)
      as (it' & Hit' & Hcase);
      exists it'; (split; [exact Hit'|]);
      destruct Hcase as [ [_ ->] | (Heq & -> & ->) ]; [by split|].
    unfold item_state; cbn.
    rewrite Hd0, Hp0. split; [done|].
    intros _. exists id. split; [done|]. left. eauto.
  - destruct E as (Ho & _ & it0 & Hit0 & Hd0 & ->).
    destruct (insert_lookup_cases (items s) (N.to_nat id) i it0 it
                (set_purchasedAt 0%N
                   (set_encryptedPurchaserName "" (set_isPurchased false it0)))
                Hit0 Hi)
      as (it' & Hit' & Hcase);
      exists it'; (split; [exact Hit'|]);
      destruct Hcase as [ [_ ->] | (Heq & -> & ->) ]; [by split|].
    unfold item_state; cbn. rewrite Hd0.
    destruct (isPurchased it); split; try done.
    intros _. exists id. split; [done|]. right. left. by repeat split.
  - destruct E as (_ & _ & _ & ->). exists it. by repeat split.
Qed.

Lemma item_lifecycle_witness :
  let o := {| sender := 7%N; timestamp := 1%N |} in
  let s := run [(o, CallAddItem "Item" "Desc" "url" "img");
                (o, CallRemoveItem 0%N)] (constructor o) in
  exists it',
    items (step s (o, CallResetItem 0%N)) !! 0%nat = Some it' /\
    it' = set_isDeleted true (new_item "Item" "Desc" "url" "img").
Proof.
  intros o s.
  destruct (item_lifecycle s o (CallResetItem 0%N) 0
              (set_isDeleted true (new_item "Item" "Desc" "url" "img"))
              eq_refl) as (it' & Hit' & Hd & _).
  exists it'. split; [exact Hit' | by apply Hd].
Defined.

(** ** Part VII. Further properties of the relayer *)

(** *** Validation of a purchase request *)







(** *** The purchase flow, step by step *)










(** *** The notification *)

(** The purchase flow with the notification left out of the trace. *)
Lemma handlePurchase_without_notification {World} (env : Env World) cfg cfg'
    request st :
  REGISTRY_PASSWORD cfg' = REGISTRY_PASSWORD cfg ->
  OWNER_PUBLIC_KEY cfg' = OWNER_PUBLIC_KEY cfg ->
  fst (handlePurchase env cfg' request st)
  = fst (handlePurchase env cfg request st) /\
  world (after (handlePurchase env cfg' request) st)
  = world (after (handlePurchase env cfg request) st) /\
  List.filter (fun io => negb (is_notify io))
    (trace (after (handlePurchase env cfg' request) st))
  = List.filter (fun io => negb (is_notify io))
      (trace (after (handlePurchase env cfg request) st)).
Proof.
  intros Hpw Hkey.
  unfold after, handlePurchase, handlePurchase_try, handlePurchase_catch,
    try_catch, mbind, ret, throw, initializeContract, contract_items,
    contract_markAsPurchased, tx_wait, encryptPurchaserName,
    submitPurchaseNotification, call, emit.
  unfold try_catch, mbind, ret, throw, call, emit.
  rewrite Hpw, Hkey.
  repeat (case_match; simplify_eq/=);
    repeat split; rewrite ?List.filter_app; cbn; by rewrite ?app_nil_r.
Qed.

Lemma handlePurchase_notifies {World} (env : Env World) cfg request st :
  exists t,
    trace (after (handlePurchase env cfg request) st) = trace st ++ t /\
    (List.filter is_notify t = [] \/
     FORMSPREE_ENDPOINT cfg <> None /\
     exists response,
       fst (handlePurchase env cfg request st) = Return response /\
       statusCode response = 200%Z).
Proof.
  unfold after, handlePurchase, handlePurchase_try, handlePurchase_catch,
    try_catch, mbind, ret, throw, initializeContract, contract_items,
    contract_markAsPurchased, tx_wait, encryptPurchaserName,
    submitPurchaseNotification, call, emit.
  unfold try_catch, mbind, ret, throw, call, emit.
  repeat (case_match; simplify_eq/=);
    first
      [ exists []; split; [by rewrite app_nil_r | by left]
      | eexists; split; [by rewrite <- ?app_assoc|]; cbn;
        first [ by left | right; split; [done|]; by eexists ] ].
Qed.

(** X15. The notification is detached from the purchase. Whether and where
    a notification endpoint is configured changes neither the response nor
    what happens to the world, and the other calls in the trace are the
    same. A notification is started only after a purchase that is answered
    200, and never when no endpoint is configured. *)
Theorem notification_detached {World} (env : Env World) cfg cfg' request st :
  REGISTRY_PASSWORD cfg' = REGISTRY_PASSWORD cfg ->
  OWNER_PUBLIC_KEY cfg' = OWNER_PUBLIC_KEY cfg ->
  (fst (handlePurchase env cfg' request st)
   = fst (handlePurchase env cfg request st) /\
   world (after (handlePurchase env cfg' request) st)
   = world (after (handlePurchase env cfg request) st) /\
   List.filter (fun io => negb (is_notify io))
     (trace (after (handlePurchase env cfg' request) st))
   = List.filter (fun io => negb (is_notify io))
       (trace (after (handlePurchase env cfg request) st))) /\
  exists t,
    trace (after (handlePurchase env cfg request) st) = trace st ++ t /\
    (List.filter is_notify t = [] \/
     FORMSPREE_ENDPOINT cfg <> None /\
     exists response,
       fst (handlePurchase env cfg request st) = Return response /\
       statusCode response = 200%Z).
Proof.
  intros Hpw Hkey.
  split; [by apply handlePurchase_without_notification|].
  apply handlePurchase_notifies.
Qed.

Lemma notification_detached_witness :
  fst (handlePurchase chain_env
         {| REGISTRY_PASSWORD := Some "secret";
            OWNER_PUBLIC_KEY := Some "0x04ab";
            CONTRACT_ADDRESS := None;
            FORMSPREE_ENDPOINT := Some "https://formspree.io/f/x" |}
         good_request (start (chain_of one_item)))
  = fst (handlePurchase chain_env test_config good_request
           (start (chain_of one_item))).
Proof.
  by destruct (notification_detached chain_env test_config
                 {| REGISTRY_PASSWORD := Some "secret";
                    OWNER_PUBLIC_KEY := Some "0x04ab";
                    CONTRACT_ADDRESS := None;
                    FORMSPREE_ENDPOINT := Some "https://formspree.io/f/x" |}
                 good_request (start (chain_of one_item)) eq_refl eq_refl)
    as [ [H _] _].
Defined.

(** *** The entry point *)


Lemma handleGetItems_status {World} (env : Env World) st :
  exists response,
    fst (handleGetItems env st) = Return response /\
    In (statusCode response) status_codes.
Proof.
  unfold handleGetItems, try_catch, mbind, initializeContract, call, ret.
  destruct (ext_initialize env (world st)) as [[[]|error] w].
  - destruct (items_loop_scan env 1024 0 []
                {| world := w; trace := trace st ++ [IoInitialize] |}
                eq_refl) as (entries & st' & Hloop & _).
    unfold list_items. rewrite Hloop. cbn.
    eexists. split; [done | cbn; tauto].
  - cbn. eexists. split; [done | cbn; tauto].
Qed.

Lemma handlePurchase_status {World} (env : Env World) cfg request st :
  match fst (handlePurchase env cfg request st) with
  | Return response => In (statusCode response) status_codes
  | Throw _ => True
  end.
Proof.
  unfold handlePurchase, handlePurchase_try, handlePurchase_catch,
    try_catch, mbind, ret, throw, initializeContract, contract_items,
    contract_markAsPurchased, tx_wait, encryptPurchaserName,
    submitPurchaseNotification, call, emit.
  unfold try_catch, mbind, ret, throw, call, emit.
  repeat (case_match; simplify_eq/=); cbn; tauto.
Qed.

(** X17. The Lambda entry point always answers: whatever the event and
    whatever the outside calls do, [handler] returns a response and does not
    throw, and the status is one of 200, 400, 401, 404, 409 and 500. *)
Theorem handler_always_answers {World} (env : Env World) cfg event st :
  exists response,
    fst (handler env cfg event st) = Return response /\
    In (statusCode response) status_codes.
Proof.
  unfold handler.
  destruct (String.eqb (http_method event) "OPTIONS");
    [eexists; split; [done | cbn; tauto]|].
  unfold try_catch.
  destruct (String.eqb (http_method event) "GET"
            && endsWith (http_path event) "/items").
  { destruct (handleGetItems_status env st) as (response & Hr & Hs).
    destruct (handleGetItems env st) as [r st']; cbn in Hr; subst r.
    by exists response. }
  destruct (String.eqb (http_method event) "POST"
            && endsWith (http_path event) "/purchase").
  { pose proof (handlePurchase_status env cfg (http_body event) st) as Hs.
    destruct (handlePurchase env cfg (http_body event) st)
      as [[response|error] st']; cbn in Hs.
    - by exists response.
    - eexists; split; [done | cbn; tauto]. }
  destruct (String.eqb (http_method event) "GET"
            && endsWith (http_path event) "/health");
    eexists; (split; [done | cbn; tauto]).
Qed.

(** X18. Only two routes reach the outside: an event that is neither a GET
    of a path ending in /items nor a POST to a path ending in /purchase is
    answered without any outside call, the world and the trace staying as
    they were. The answer is 200 with an empty body for OPTIONS on any
    path, 200 for GET of a path ending in /health, and 404 otherwise. *)
Theorem handler_quiet_routes {World} (env : Env World) cfg event st :
  items_route event = false ->
  purchase_route event = false ->
  after (handler env cfg event) st = st /\
  exists response,
    fst (handler env cfg event st) = Return response /\
    (if String.eqb (http_method event) "OPTIONS"
     then response = {| statusCode := 200; body := JStr "" |}
     else if String.eqb (http_method event) "GET"
             && endsWith (http_path event) "/health"
     then statusCode response = 200%Z /\
          property "contractAddress" (body response)
          = optional_string (CONTRACT_ADDRESS cfg)
     else response
          = {| statusCode := 404;
               body := object [("error", JStr "Not found")] |}).
Proof.
  unfold items_route, purchase_route, after, handler. intros Hi Hp.
  destruct (String.eqb (http_method event) "OPTIONS");
    [split; [done | by eexists] |].
  unfold try_catch. rewrite Hi, Hp.
  destruct (String.eqb (http_method event) "GET"
            && endsWith (http_path event) "/health"); cbn.
  - split; [done|]. eexists. split; [done|]. split; [done|].
    unfold object. cbn.
    destruct (ext_relayer_address env (world st)),
             (CONTRACT_ADDRESS cfg); by cbn.
  - split; [done | by eexists].
Qed.

Lemma handler_quiet_routes_witness :
  fst (handler chain_env test_config
         {| http_method := "GET"; http_path := "/purchase";
            http_body := good_request |} (start (chain_of one_item)))
  = Return {| statusCode := 404;
              body := object [("error", JStr "Not found")] |} /\
  after (handler chain_env test_config
           {| http_method := "GET"; http_path := "/purchase";
              http_body := good_request |}) (start (chain_of one_item))
  = start (chain_of one_item).
Proof.
  destruct (handler_quiet_routes chain_env test_config
              {| http_method := "GET"; http_path := "/purchase";
                 http_body := good_request |} (start (chain_of one_item))
              eq_refl eq_refl) as (Hafter & response & Hr & Hcase).
  cbn in Hcase. subst response. by split.
Defined.

(** *** The retry loop, for any bound *)

Lemma retry_trace_last io attempt n :
  retry_trace io attempt (S (S n))
  = io :: IoSleep (2 ^ Z.of_nat attempt * 1000)
       :: retry_trace io (S attempt) (S n).
Proof. done. Qed.

Lemma retry_loop_exhausted {World} (env : Env World) v maxRetries :
  (forall w, exists error w',
     ext_items env v w = (Throw error, w') /\ isRateLimit error = true) ->
  forall n attempt st,
    n + attempt = maxRetries -> 0 < n ->
    exists error st',
      retry_loop (contract_items env v) maxRetries n attempt st
      = (Throw error, st') /\
      isRateLimit error = true /\
      trace st' = trace st ++ retry_trace (IoRead v) attempt n.
Proof.
  intros Hfail. induction n as [|n IH]; intros attempt st Hn Hpos; [lia|].
  cbn [retry_loop]. unfold try_catch, mbind at 1.
  unfold contract_items at 1, call.
  destruct (Hfail (world st)) as (error & w' & Hread & Hrate).
  rewrite Hread, Hrate. cbn.
  destruct n as [|n].
  - assert ((attempt =? maxRetries - 1)%nat = true) as ->
      by (apply Nat.eqb_eq; lia).
    cbn. unfold throw. by eexists _, _.
  - assert ((attempt =? maxRetries - 1)%nat = false) as ->
      by (apply Nat.eqb_neq; lia).
    cbn. unfold mbind, sleep, emit. cbn.
    destruct (IH (S attempt)
                {| world := w';
                   trace := (trace st ++ [IoRead v])
                            ++ [IoSleep (2 ^ Z.of_nat attempt * 1000)] |})
      as (error' & st' & Hloop & Hrate' & Htrace); [lia | lia |].
    exists error', st'. split; [exact Hloop|]. split; [done|].
    rewrite Htrace. cbn. by rewrite <- !app_assoc.
Qed.

(** X19. [retryWithBackoff] for any bound of at least one attempt. A call
    that returns at the first attempt is made once and nothing is slept; a
    failure that is not transient is thrown after that one attempt. When
    every attempt fails with a transient error, the call is attempted
    exactly [maxRetries] times with delays of 1000, 2000, 4000, ... ms
    between the attempts, and then the transient error is thrown: the loop
    gives up and never returns [undefined]. *)
Theorem retry_outcomes {World} (env : Env World) v maxRetries st :
  0 < maxRetries ->
  (forall item w',
     ext_items env v (world st) = (Return item, w') ->
     retryWithBackoff (contract_items env v) maxRetries st
     = (Return (Some item),
        {| world := w'; trace := trace st ++ [IoRead v] |})) /\
  (forall error w',
     ext_items env v (world st) = (Throw error, w') ->
     isRateLimit error = false ->
     retryWithBackoff (contract_items env v) maxRetries st
     = (Throw error, {| world := w'; trace := trace st ++ [IoRead v] |})) /\
  ((forall w, exists error w',
      ext_items env v w = (Throw error, w') /\ isRateLimit error = true) ->
   exists error st',
     retryWithBackoff (contract_items env v) maxRetries st
     = (Throw error, st') /\
     isRateLimit error = true /\
     trace st' = trace st ++ retry_trace (IoRead v) 0 maxRetries /\
     reads_of (retry_trace (IoRead v) 0 maxRetries)
     = replicate maxRetries v /\
     sleeps_of (retry_trace (IoRead v) 0 maxRetries)
     = backoff_delays (maxRetries - 1)).
Proof.
  intros Hpos. unfold retryWithBackoff.
  destruct maxRetries as [|n]; [lia|].
  split; [|split].
  - intros item w' Hread. cbn [retry_loop].
    unfold try_catch, mbind, contract_items, call, ret. by rewrite Hread.
  - intros error w' Hread Hrate. cbn [retry_loop].
    unfold try_catch, mbind, contract_items, call, throw.
    by rewrite Hread, Hrate.
  - intros Hfail.
    destruct (retry_loop_exhausted env v (S n) Hfail (S n) 0 st)
      as (error & st' & Hloop & Hrate & Htrace); [lia | lia |].
    exists error, st'. split; [done|]. split; [done|]. split; [done|].
    split; [apply reads_of_retry_trace | apply sleeps_of_retry_trace].
Qed.

Lemma retry_outcomes_witness :
  retryWithBackoff (contract_items chain_env (JNum 0)) 5
    (start (chain_of one_item))
  = (Return (Some (new_item "Blender" "" "" "")),
     {| world := chain_of one_item; trace := [IoRead (JNum 0)] |}).
Proof.
  destruct (retry_outcomes chain_env (JNum 0) 5 (start (chain_of one_item)))
    as [H _]; [lia|].
  by apply H.
Defined.

(** *** The listing over a source that does not fail *)

Section StoredItems.
Context {World : Type} (env : Env World).
Context (good : World -> Prop) (stored : list RegistryItem).
Hypothesis read_stored : forall (i : nat) it w,
  good w -> stored !! i = Some it ->
  exists w', ext_items env (JNum (Z.of_nat i)) w = (Return it, w') /\ good w'.
Hypothesis read_end : forall w,
  good w ->
  exists error w',
    ext_items env (JNum (Z.of_nat (length stored))) w = (Throw error, w') /\
    isEndOfArray error = true /\ good w'.

Lemma read_item_stored (i : nat) it st :
  good (world st) -> stored !! i = Some it ->
  exists st', read_item env i st = (Return (Some it), st') /\
              good (world st').
Proof.
  intros Hgood Hi. unfold read_item.
  rewrite retryWithBackoff_policy. unfold retry_policy.
  unfold contract_items at 1, call.
  destruct (read_stored i it (world st) Hgood Hi) as (w' & -> & Hgood').
  by eexists.
Qed.

Lemma read_item_end st :
  good (world st) ->
  exists error st',
    read_item env (length stored) st = (Throw error, st') /\
    isEndOfArray error = true.
Proof.
  intros Hgood. unfold read_item.
  rewrite retryWithBackoff_policy. unfold retry_policy, after, sleep, emit.
  unfold contract_items, call. cbn.
  destruct (read_end (world st) Hgood) as (e1 & w1 & Hr1 & He1 & Hg1).
  rewrite Hr1.
  destruct (isRateLimit e1); [|by eexists _, _].
  destruct (read_end w1 Hg1) as (e2 & w2 & Hr2 & He2 & Hg2).
  cbn. rewrite Hr2.
  destruct (isRateLimit e2); [|by eexists _, _].
  destruct (read_end w2 Hg2) as (e3 & w3 & Hr3 & He3 & Hg3).
  cbn. rewrite Hr3. by eexists _, _.
Qed.

Lemma items_loop_stored n index formattedItems st :
  index + n = 1024 -> index <= length stored -> length stored <= 1024 ->
  good (world st) ->
  fst (items_loop env n index formattedItems st)
  = Return (formattedItems
            ++ imap (fun j => format_item (index + j)) (drop index stored)).
Proof.
  revert index formattedItems st.
  induction n as [|n IH]; intros index acc st Hn Hi Hlen Hgood.
  - rewrite drop_ge by lia. cbn. by rewrite app_nil_r.
  - cbn [items_loop]. unfold mbind at 1.
    pose proof (items_body_cases env index acc st) as Hbody.
    destruct (decide (index = length stored)) as [->|Hne].
    + destruct (read_item_end st Hgood) as (error & st' & Hread & Hend).
      rewrite Hread, Hend in Hbody. rewrite Hbody. cbn.
      rewrite drop_ge by lia. cbn. by rewrite app_nil_r.
    + destruct (lookup_lt_is_Some_2 stored index) as [it Hit]; [lia|].
      destruct (read_item_stored index it st Hgood Hit)
        as (st' & Hread & Hgood').
      rewrite Hread in Hbody. rewrite Hbody.
      rewrite (IH (S index)); [|lia|lia|lia|done].
      rewrite <- app_assoc. do 2 f_equal.
      rewrite (drop_S _ _ _ Hit). cbn. rewrite Nat.add_0_r. f_equal.
      apply imap_ext. intros j x _. cbn. f_equal. lia.
Qed.

(** X20. Against a source that answers every read, the listing is complete
    and in order: if the source returns the item stored at each index below
    the number of stored items and signals the end of the range at that
    number, and at most 1024 items are stored, the listing has one entry
    per stored item, deleted ones included, entry [i] being the item of
    index [i] in the listing's format. *)
Theorem listing_of_stored_items st :
  length stored <= 1024 ->
  good (world st) ->
  fst (list_items env st) = Return (imap format_item stored).
Proof.
  intros Hlen Hgood. unfold list_items.
  rewrite (items_loop_stored 1024 0 [] st); [done | lia | lia | done | done].
Qed.
End StoredItems.

Lemma chain_read_in_range s (i : nat) it :
  items s !! i = Some it ->
  chain_items (JNum (Z.of_nat i)) (chain_of s) = (Return it, chain_of s).
Proof.
  intros Hi. unfold chain_items, chain_read, to_uint256, items_getter, index.
  cbn. assert ((0 <=? Z.of_nat i)%Z = true) as -> by (apply Z.leb_le; lia).
  by rewrite Z_N_nat, Nat2Z.id, Hi.
Qed.

Lemma chain_read_out_of_range s :
  chain_items (JNum (Z.of_nat (length (items s)))) (chain_of s)
  = (Throw missing_revert_data, chain_of s).
Proof.
  unfold chain_items, chain_read, to_uint256, items_getter, index. cbn.
  assert ((0 <=? Z.of_nat (length (items s)))%Z = true) as ->
    by (apply Z.leb_le; lia).
  rewrite Z_N_nat, Nat2Z.id.
  by rewrite (lookup_ge_None_2 (items s) (length (items s))) by lia.
Qed.

Lemma listing_of_stored_items_witness :
  fst (list_items chain_env (start (chain_of eight_items)))
  = Return (imap format_item (items eight_items)).
Proof.
  apply (listing_of_stored_items chain_env
           (fun w => w = chain_of eight_items) (items eight_items)).
  - intros i it w -> Hi. exists (chain_of eight_items).
    split; [by apply chain_read_in_range | done].
  - intros w ->. exists missing_revert_data, (chain_of eight_items).
    split; [apply chain_read_out_of_range | by split].
  - cbn. lia.
  - done.
Defined.

(** *** The owner key and the purchase time *)

Lemma substring_all (s : string) : String.substring 0 (String.length s) s = s.
Proof. induction s as [|c s IH]; cbn; [done | by rewrite IH]. Qed.

Lemma slice_0x (key : string) : slice ("0x" +:+ key) 2 = key.
Proof.
  unfold slice. rewrite !append_String, append_Empty. cbn.
  rewrite ?Nat.sub_0_r. apply substring_all.
Qed.

Lemma startsWith_04_not_0x (key : string) :
  startsWith key "04" = true -> startsWith key "0x" = false.
Proof.
  unfold startsWith. intros [post ->]%prefix_app. reflexivity.
Qed.

(** X21. The key handed to [eccrypto] always carries the [04] of an
    uncompressed key. Cleaning a key is idempotent, a leading [0x] is
    dropped, and a key that comes with its [04] is taken as it is. For
    coordinates that do not themselves begin with [04] or [0x], the forms
    [0x04...], [04...] and the bare coordinates give the same key. *)
Theorem cleanPublicKey_normal (key : string) :
  startsWith (cleanPublicKey key) "04" = true /\
  cleanPublicKey (cleanPublicKey key) = cleanPublicKey key /\
  (startsWith key "0x" = false ->
   cleanPublicKey ("0x" +:+ key) = cleanPublicKey key) /\
  (startsWith key "04" = true -> cleanPublicKey key = key) /\
  (startsWith key "0x" = false -> startsWith key "04" = false ->
   cleanPublicKey key = "04" +:+ key /\
   cleanPublicKey ("04" +:+ key) = "04" +:+ key /\
   cleanPublicKey ("0x04" +:+ key) = "04" +:+ key).
Proof.
  assert (H04 : startsWith (cleanPublicKey key) "04" = true).
  { unfold cleanPublicKey.
    destruct (startsWith key "0x");
      match goal with
      | |- context [negb (startsWith ?k "04")] =>
          destruct (startsWith k "04") eqn:E; cbn;
          [exact E | apply prefix_app; by eexists]
      end. }
  assert (Hfix : forall k, startsWith k "04" = true -> cleanPublicKey k = k).
  { intros k Hk. unfold cleanPublicKey.
    by rewrite (startsWith_04_not_0x k Hk), Hk. }
  split; [done|]. split; [by apply Hfix|]. split; [|split; [by apply Hfix|] ].
  - intros Hx. unfold cleanPublicKey at 1.
    assert (startsWith ("0x" +:+ key) "0x" = true) as ->
      by (apply prefix_app; by eexists).
    rewrite slice_0x. unfold cleanPublicKey. by rewrite Hx.
  - intros Hx H4. split; [|split].
    + unfold cleanPublicKey. by rewrite Hx, H4.
    + apply Hfix, prefix_app. by eexists.
    + unfold cleanPublicKey.
      change ("0x04" +:+ key) with ("0x" +:+ ("04" +:+ key)).
      assert (startsWith ("0x" +:+ ("04" +:+ key)) "0x" = true) as ->
        by (apply prefix_app; by eexists).
      rewrite slice_0x.
      assert (startsWith ("04" +:+ key) "04" = true) as ->
        by (apply prefix_app; by eexists).
      done.
Qed.

Lemma cleanPublicKey_normal_witness :
  cleanPublicKey "0x04ab" = "04ab" /\ cleanPublicKey "ab" = "04ab" /\
  cleanPublicKey "04ab" = "04ab".
Proof.
  destruct (cleanPublicKey_normal "ab") as (_ & _ & _ & _ & H).
  destruct H as (H1 & H2 & H3); [reflexivity | reflexivity |].
  by repeat split.
Defined.

(** X22. What the listing shows of a purchase. For an item of a registry
    reached through blocks with positive timestamps, the entry's
    [purchasedAt] is [null] exactly when the item is not purchased, and for
    a purchase time below [2^53] it is that time, exactly. *)
Theorem listing_purchase_time deployer txs (i : nat) it index :
  Forall positive_time txs ->
  items (run txs (constructor deployer)) !! i = Some it ->
  (property "purchasedAt" (format_item index it) = JNull
   <-> isPurchased it = false) /\
  property "isPurchased" (format_item index it) = JBool (isPurchased it) /\
  (isPurchased it = true -> (purchasedAt it < 2 ^ 53)%N ->
   property "purchasedAt" (format_item index it)
   = JNum (Z.of_N (purchasedAt it))).
Proof.
  intros Htime Hi.
  assert (Hc : coupled it).
  { assert (H : Forall coupled (items (run txs (constructor deployer))))
      by (apply run_coupled; [done | constructor]).
    eapply Forall_lookup_1 in H; [|eassumption]. exact H. }
  assert (Hu : unpurchased_cleared it).
  { assert (H : Forall unpurchased_cleared
                  (items (run txs (constructor deployer))))
      by (apply run_unpurchased_cleared; constructor).
    eapply Forall_lookup_1 in H; [|eassumption]. exact H. }
  unfold format_item.
  destruct (purchasedAt it =? 0)%N eqn:Hz; cbn.
  - apply N.eqb_eq in Hz. split; [|split; [done|] ].
    + split; [|done]. intros _.
      destruct (isPurchased it) eqn:Hp; [|done].
      destruct (Hc Hp) as [_ Hpos]. lia.
    + intros Hp _. destruct (Hc Hp) as [_ Hpos]. lia.
  - apply N.eqb_neq in Hz. split; [|split; [done|] ].
    + split; [done|]. intros Hp. destruct (Hu Hp) as [_ H0]. done.
    + intros _ Hlt. unfold Number_.
      assert ((Z.of_N (purchasedAt it) <? 2 ^ 53)%Z = true) as ->; [|done].
      apply Z.ltb_lt.
      change (2 ^ 53)%Z with (Z.of_N (2 ^ 53)%N). lia.
Qed.

Lemma listing_purchase_time_witness :
  let o := {| sender := 7%N; timestamp := 1700000000%N |} in
  let txs := [(o, CallAddItem "Glasses" "" "" "");
              (o, CallMarkAsPurchased 0%N "enc")] in
  property "purchasedAt"
    (format_item 0 (set_purchasedAt 1700000000%N
                      (set_encryptedPurchaserName "enc"
                         (set_isPurchased true (new_item "Glasses" "" "" "")))))
  = JNum 1700000000.
Proof.
  intros o txs.
  destruct (listing_purchase_time o txs 0
              (set_purchasedAt 1700000000%N
                 (set_encryptedPurchaserName "enc"
                    (set_isPurchased true (new_item "Glasses" "" "" ""))))
              0) as (_ & _ & H);
    [repeat constructor | reflexivity |].
  apply H; reflexivity.
Defined.

(** *** The end of the range, and a body that does not parse *)

(** X23. The end of the range is detected the slow way. An error with code
    [CALL_EXCEPTION] counts as transient for [retryWithBackoff], so when
    the source signals the end of the array with such an error, without
    data and reason, the listing reads that index three times, sleeping
    1000 ms and 2000 ms in between, before it stops with the entries it
    has. *)
Theorem end_of_range_is_retried {World} (env : Env World)
    (good : World -> Prop) index formattedItems st :
  (forall w, good w ->
     exists error w',
       ext_items env (JNum (Z.of_nat index)) w = (Throw error, w') /\
       code error = JStr "CALL_EXCEPTION" /\
       data error = JNull /\ reason error = JNull /\ good w') ->
  good (world st) ->
  exists st',
    items_body env index formattedItems st
    = (Return (Break formattedItems), st') /\
    trace st'
    = trace st ++ [IoRead (JNum (Z.of_nat index)); IoSleep 1000;
                   IoRead (JNum (Z.of_nat index)); IoSleep 2000;
                   IoRead (JNum (Z.of_nat index))].
Proof.
  intros Hend Hgood.
  assert (Hclass : forall error,
            code error = JStr "CALL_EXCEPTION" ->
            data error = JNull -> reason error = JNull ->
            isRateLimit error = true /\ isEndOfArray error = true).
  { intros error Hc Hd Hr. unfold isRateLimit, isEndOfArray.
    rewrite Hc, Hd, Hr. cbn. split; [done | apply orb_true_r]. }
  pose proof (items_body_cases env index formattedItems st) as Hbody.
  unfold read_item in Hbody. rewrite retryWithBackoff_policy in Hbody.
  revert Hbody. unfold retry_policy, after, sleep, emit, contract_items, call.
  cbn.
  destruct (Hend (world st) Hgood) as (e1 & w1 & -> & Hc1 & Hd1 & Hr1 & Hg1).
  destruct (Hclass e1 Hc1 Hd1 Hr1) as [-> _]. cbn.
  destruct (Hend w1 Hg1) as (e2 & w2 & -> & Hc2 & Hd2 & Hr2 & Hg2).
  destruct (Hclass e2 Hc2 Hd2 Hr2) as [-> _]. cbn.
  destruct (Hend w2 Hg2) as (e3 & w3 & -> & Hc3 & Hd3 & Hr3 & Hg3).
  destruct (Hclass e3 Hc3 Hd3 Hr3) as [_ ->].
  intros ->. eexists. split; [done|]. cbn. by rewrite <- !app_assoc.
Qed.

Lemma end_of_range_is_retried_witness :
  exists st',
    items_body chain_env 8 [] (start (chain_of eight_items))
    = (Return (Break []), st') /\
    trace st' = [IoRead (JNum 8); IoSleep 1000; IoRead (JNum 8);
                 IoSleep 2000; IoRead (JNum 8)].
Proof.
  apply (end_of_range_is_retried chain_env
           (fun w => w = chain_of eight_items) 8 []
           (start (chain_of eight_items))); [|done].
  intros w ->. exists missing_revert_data, (chain_of eight_items).
  split; [exact (chain_read_out_of_range eight_items) | done].
Defined.

(** X24. A body that does not parse is answered from the text of the parse
    error alone, before any password check and without any outside call:
    409 if the text contains [already purchased], 404 if it contains
    [Invalid item ID], and otherwise 500 with the text echoed in the
    answer. *)
Theorem unparsed_body_answer {World} (env : Env World) cfg error text st :
  message error = Some text ->
  exists response,
    handlePurchase env cfg (BodyThrows error) st = (Return response, st) /\
    statusCode response
    = (if includes text "already purchased" then 409
       else if includes text "Invalid item ID" then 404 else 500)%Z /\
    (includes text "already purchased" = false ->
     includes text "Invalid item ID" = false ->
     property "message" (body response) = JStr text).
Proof.
  intros Hmsg. unfold handlePurchase, try_catch, handlePurchase_try.
  cbn. unfold handlePurchase_catch, message_includes, mbind, emit, ret.
  rewrite Hmsg. cbn.
  destruct (includes text "already purchased") eqn:H1; cbn.
  { eexists. split; [done|]. by split. }
  destruct (includes text "Invalid item ID") eqn:H2; cbn.
  { eexists. split; [done|]. by split. }
  eexists. split; [done|]. by split.
Qed.

Lemma unparsed_body_answer_witness :
  exists response,
    handlePurchase chain_env test_config
      (BodyThrows (Error_ "Unexpected token } in JSON at position 1"))
      (start (chain_of one_item))
    = (Return response, start (chain_of one_item)) /\
    statusCode response = 500%Z.
Proof.
  destruct (unparsed_body_answer chain_env test_config
              (Error_ "Unexpected token } in JSON at position 1")
              "Unexpected token } in JSON at position 1"
              (start (chain_of one_item)))
    as (response & Hrun & Hstatus & _); [reflexivity|].
  exists response. split; [exact Hrun | exact Hstatus].
Defined.
